(** * ratcave.coordinates: a shallow embedding and its verified properties

    The module [ratcave/coordinates.py] represents translations, rotations and
    scales as small mutable objects with letter-addressed components.  The
    embedding below follows the Python source statement by statement, for the
    accessor generation, the constructors, the conversions between the
    rotation variants, [Translation.__add__]/[__sub__], [Scale.to_matrix] and
    [Scale.from_matrix], and the two vector utilities:

    - Python objects live in a heap ([world]); a reference is a heap index, so
      two names for one object share every later mutation;
    - methods are computations in the monad [Py] (state plus exceptions);
    - numbers are abstract ([Arith]); the instance [float64] is IEEE binary64
      and runs, the instance [real] idealises floats as real numbers;
    - numpy's degree/radian maps and scipy's [Rotation] class are external to
      the repository and enter as the interface [Backend]. *)

From Stdlib Require Import ZArith List String Ascii Floats FloatLemmas Reals Lra Lia Bool.
From stdpp Require Import base option list gmap strings.

Set Default Proof Using "Type".

(** ** Numbers *)

(** Arithmetic the source uses on array elements and Python floats.  [f32] is
    the conversion performed when a value is stored into an array of
    [dtype=np.float32]. *)
Class Arith (F : Type) := {
  f0 : F;
  f1 : F;
  fadd : F -> F -> F;
  fsub : F -> F -> F;
  fmul : F -> F -> F;
  fdiv : F -> F -> F;
  fneg : F -> F;
  fsqrt : F -> F;
  feqb : F -> F -> bool;
  f32 : F -> F
}.

(** ** Python exceptions *)

Inductive exn : Type :=
| AttributeError
| AssertionError (msg : string)
| IndexError
| KeyError
| TypeError
| ValueError (msg : string)
| InvalidReference.

(** ** Classes of the module *)

Inductive cls : Type :=
| Coordinates
| RotationEulerRadians
| RotationEulerDegrees
| RotationQuaternion
| Translation
| Scale.

#[global] Instance cls_eq_dec : EqDecision cls.
Proof. solve_decision. Defined.

Definition cls_code (c : cls) : nat :=
  match c with
  | Coordinates => 0
  | RotationEulerRadians => 1
  | RotationEulerDegrees => 2
  | RotationQuaternion => 3
  | Translation => 4
  | Scale => 5
  end.

Definition cls_of_code (n : nat) : cls :=
  match n with
  | 0 => Coordinates
  | 1 => RotationEulerRadians
  | 2 => RotationEulerDegrees
  | 3 => RotationQuaternion
  | 4 => Translation
  | _ => Scale
  end.

#[global] Instance cls_countable : Countable cls.
Proof. apply (inj_countable' cls_code cls_of_code). by intros []. Defined.

(** [coords]: the class attribute mapping an axis letter to its index.  A
    Python dict iterates in insertion order, which [itertools.product] sees,
    so the map is kept as an ordered association list. *)
Definition coords (c : cls) : list (ascii * nat) :=
  match c with
  | RotationQuaternion => [("w"%char, 0); ("x"%char, 1); ("y"%char, 2); ("z"%char, 3)]
  | _ => [("x"%char, 0); ("y"%char, 1); ("z"%char, 2)]
  end.

Definition dict_keys {K V} (d : list (K * V)) : list K := d.*1.

Fixpoint dict_get (d : list (ascii * nat)) (k : ascii) : option nat :=
  match d with
  | [] => None
  | (k', v) :: d' => if decide (k' = k) then Some v else dict_get d' k
  end.

(** [itertools.product(keys, repeat=n)]: the rightmost position advances
    fastest. *)
Fixpoint product {A} (keys : list A) (n : nat) : list (list A) :=
  match n with
  | 0 => [[]]
  | S n' => k ← keys; (k ::.) <$> product keys n'
  end.

(** What a generated getter/setter pair closes over: the letters [args] and
    the list [indices] computed from them. *)
Record property := Property {
  p_args : list ascii;
  p_indices : list nat
}.

(** The value a setter receives or a getter returns: a scalar, or a sequence
    (tuple, list). *)
Inductive pyvalue (F : Type) : Type :=
| Scalar (x : F)
| Sequence (xs : list F).
Arguments Scalar {F} x.
Arguments Sequence {F} xs.

(** ** External numerics: numpy's angle maps and scipy's [Rotation]

    [scipy.spatial.transform.Rotation] (imported as [R]) and
    [np.degrees]/[np.radians] are not code of the repository.  On arrays they
    are taken as total functions; matrices are lists of rows, [as_quat]
    returns four numbers and [as_euler] three.  [R.from_quat] is not among
    them: the source calls it with an instance in place of an array, see
    [R_from_quat_instance]. *)
Class Backend (F : Type) := {
  np_degrees : F -> F;
  np_radians : F -> F;
  Rotation : Type;
  R_from_euler : string -> list F -> bool -> Rotation;
  R_from_matrix : list (list F) -> Rotation;
  R_as_quat : Rotation -> F * F * F * F;
  R_as_matrix : Rotation -> list (list F);
  R_as_euler : Rotation -> string -> bool -> F * F * F
}.

(** ** Strings *)

(** [s.lower()] on the ASCII letters. *)
Definition lower_ascii (a : ascii) : ascii :=
  let n := nat_of_ascii a in
  if (65 <=? n) && (n <=? 90) then ascii_of_nat (n + 32) else a.

Fixpoint lower (s : string) : string :=
  match s with
  | EmptyString => EmptyString
  | String a s' => String (lower_ascii a) (lower s')
  end.

(** [s[1:]]. *)
Definition str_tail (s : string) : string :=
  match s with
  | EmptyString => EmptyString
  | String _ s' => s'
  end.

Section Model.
Context {F : Type} `{Arith F}.

(** ** Objects, heap and the state monad *)

Definition loc := nat.

(** Values held in an instance [__dict__]. *)
Inductive attr : Type :=
| AArray (a : list F)
| AStr (s : string).

Record object := Object {
  ob_class : cls;
  ob_dict : gmap string attr
}.

(** [heap]: the live objects, addressed by position.  [class_ns]: the
    attributes installed on classes at run time by [setattr(self.__class__,
    ...)].  [observed]: the calls of the observer hook so far, each with the
    object as the observer finds it. *)
Record world := World {
  heap : list object;
  class_ns : gmap (cls * string) property;
  observed : list (loc * object)
}.

Definition empty_world : world := World [] ∅ [].

Definition Py (A : Type) : Type := world -> (exn + A) * world.

#[global] Instance Py_ret : MRet Py := fun A a w => (inr a, w).

#[global] Instance Py_bind : MBind Py := fun A B k m w =>
  match m w with
  | (inr a, w') => k a w'
  | (inl e, w') => (inl e, w')
  end.

Definition raise {A} (e : exn) : Py A := fun w => (inl e, w).

Definition lift {A} (r : exn + A) : Py A := fun w => (r, w).

Fixpoint for_each {A} (xs : list A) (body : A -> Py unit) : Py unit :=
  match xs with
  | [] => mret tt
  | x :: xs' => _ ← body x; for_each xs' body
  end.

Definition deref (l : loc) : Py object := fun w =>
  match heap w !! l with
  | Some o => (inr o, w)
  | None => (inl InvalidReference, w)
  end.

(** [object.__new__(cls)]: a fresh object with an empty [__dict__]. *)
Definition alloc (c : cls) : Py loc := fun w =>
  (inr (length (heap w)),
   World (heap w ++ [Object c ∅]) (class_ns w) (observed w)).

(** [self.name] for a data attribute of the instance. *)
Definition getattr (self : loc) (name : string) : Py attr :=
  o ← deref self;
  match ob_dict o !! name with
  | Some v => mret v
  | None => raise AttributeError
  end.

(** [self.name = v]. *)
Definition setattr (self : loc) (name : string) (v : attr) : Py unit := fun w =>
  match heap w !! self with
  | Some o =>
      (inr tt,
       World (<[self := Object (ob_class o) (<[name := v]> (ob_dict o))]> (heap w))
             (class_ns w) (observed w))
  | None => (inl InvalidReference, w)
  end.

(** [setattr(cls, name, property(...))]. *)
Definition class_setattr (c : cls) (name : string) (p : property) : Py unit := fun w =>
  (inr tt, World (heap w) (<[(c, name) := p]> (class_ns w)) (observed w)).

(** [self._array]. *)
Definition get_array (self : loc) : Py (list F) :=
  v ← getattr self "_array";
  match v with
  | AArray a => mret a
  | AStr _ => raise TypeError
  end.

(** [self.name] for an attribute that holds a string. *)
Definition getattr_str (self : loc) (name : string) : Py string :=
  v ← getattr self name;
  match v with
  | AStr s => mret s
  | AArray _ => raise TypeError
  end.

(** Modelled from the spec: [IterObservable.notify_observers] is not part of
    the sources; the spec describes it as an on-change hook invoked
    synchronously on the mutating thread.  The call is recorded together
    with the object as it is at that moment. *)
Definition notify_observers (self : loc) : Py unit := fun w =>
  match heap w !! self with
  | Some o => (inr tt, World (heap w) (class_ns w) (observed w ++ [(self, o)]))
  | None => (inl InvalidReference, w)
  end.

(** ** numpy on one-dimensional arrays *)

(** [np.array(args, dtype=np.float32)]. *)
Definition np_array (args : list F) : list F := f32 <$> args.

(** [a[indices]] with a list of integers: the elements in the order asked. *)
Definition np_getitem (a : list F) (indices : list nat) : exn + list F :=
  match mapM (fun i => a !! i) indices with
  | Some xs => inr xs
  | None => inl IndexError
  end.

(** Broadcasting of an assigned value to [n] positions. *)
Definition broadcast (n : nat) (value : pyvalue F) : option (list F) :=
  match value with
  | Scalar x => Some (replicate n x)
  | Sequence xs =>
      if decide (length xs = n) then Some xs
      else match xs with
           | [x] => Some (replicate n x)
           | _ => None
           end
  end.

(** [a[indices] = value] with a list of integers: numpy first broadcasts
    the value to the positions (a shape mismatch is a [ValueError]), then
    checks the indices, and writes the values one position after the other,
    so a repeated index keeps the last one. *)
Definition np_setitem (a : list F) (indices : list nat) (value : pyvalue F) : exn + list F :=
  match broadcast (length indices) value with
  | Some vs =>
      if forallb (fun i => i <? length a) indices then
        inr (foldl (fun a' iv => <[iv.1 := f32 iv.2]> a') a (zip indices vs))
      else inl IndexError
  | None => inl (ValueError "shape mismatch")
  end.

(** ** class Coordinates *)

(** [gen_getter_setter_funs]: [None] stands for the [KeyError] of
    [self.coords[coord]]. *)
Definition gen_getter_setter_funs (c : cls) (args : list ascii) : option property :=
  indices ← mapM (dict_get (coords c)) args;
  Some (Property args indices).

Definition getter (p : property) (self : loc) : Py (pyvalue F) :=
  a ← get_array self;
  if decide (1 < length (p_args p)) then
    xs ← lift (np_getitem a (p_indices p));
    mret (Sequence xs)
  else
    match p_indices p with
    | i :: _ =>
        match a !! i with
        | Some x => mret (Scalar x)
        | None => raise IndexError
        end
    | [] => raise IndexError
    end.

(** [setitem] changes the array in place; the attribute keeps naming it. *)
Definition setter (p : property) (self : loc) (value : pyvalue F) : Py unit :=
  a ← get_array self;
  a' ← lift (np_setitem a (p_indices p) value);
  _ ← setattr self "_array" (AArray a');
  notify_observers self.

(** The names generated for a class, in generation order. *)
Definition accessor_args (c : cls) : list (list ascii) :=
  n_repeats ← seq 1 (length (coords c)); product (dict_keys (coords c)) n_repeats.

Definition _init_coord_properties (self : loc) : Py unit :=
  o ← deref self;
  for_each (accessor_args (ob_class o)) (fun args =>
    match gen_getter_setter_funs (ob_class o) args with
    | Some p => class_setattr (ob_class o) (string_of_list_ascii args) p
    | None => raise KeyError
    end).

(** Lookup of a generated property through the class of the instance. *)
Definition find_property (self : loc) (name : string) : Py property := fun w =>
  match heap w !! self with
  | Some o =>
      match class_ns w !! (ob_class o, name) with
      | Some p => (inr p, w)
      | None => (inl AttributeError, w)
      end
  | None => (inl InvalidReference, w)
  end.

(** [self.<name>] and [self.<name> = value] through a generated accessor:
    the property found on the class of the instance does the work.  A name
    for which the class has no property is outside these two definitions
    (Python then reads and writes the dictionary of the instance); they
    answer [AttributeError] there, and no statement is made about it. *)
Definition get (self : loc) (name : string) : Py (pyvalue F) :=
  p ← find_property self name; getter p self.

Definition set (self : loc) (name : string) (value : pyvalue F) : Py unit :=
  p ← find_property self name; setter p self value.

(** Modelled from the spec: [IterObservable.__init__] is not part of the
    sources; observer registration is outside the core, so the call leaves
    the instance as it is. *)
Definition IterObservable__init__ (self : loc) : Py unit := mret tt.

Definition Coordinates__init__ (self : loc) (args : list F) : Py unit :=
  _ ← IterObservable__init__ self;
  _ ← setattr self "_array" (AArray (np_array args));
  _init_coord_properties self.

(** ** numpy on matrices *)

(** [np.eye(n)]. *)
Definition np_eye (n : nat) : list (list F) :=
  (fun i => <[i := f1]> (replicate n f0)) <$> seq 0 n.

(** [np.diag(v)]. *)
Definition np_diag (v : list F) : list (list F) :=
  imap (fun i x => <[i := x]> (replicate (length v) f0)) v.

(** [m[:3, :3]]. *)
Definition block33 (m : list (list F)) : list (list F) := take 3 <$> take 3 m.

(** [m[:3, :3] = res] for a 3x3 [res]. *)
Definition set_block33 (m res : list (list F)) : list (list F) :=
  zip_with (fun r_res r => take 3 r_res ++ drop 3 r) res (take 3 m) ++ drop 3 m.

(** [np.linalg.norm(m, axis=0)]: for every column the square root of the sum
    of the squared entries, summed from the first row down. *)
Definition np_linalg_norm_axis0 (m : list (list F)) : list F :=
  match (fun row : list F => (fun x => fmul x x) <$> row) <$> m with
  | [] => []
  | r :: rs => fsqrt <$> foldl (zip_with fadd) r rs
  end.

Context `{Backend F}.

(** Instantiation [cls(...)]: allocate, run the initialiser, return the
    reference. *)
Definition new (c : cls) (init : loc -> Py unit) : Py loc :=
  self ← alloc c; _ ← init self; mret self.

(** ** class RotationEuler *)

Definition RotationEuler__init__ (self : loc) (args : list F) (axes : string) : Py unit :=
  match args with
  | [x; y; z] =>
      _ ← Coordinates__init__ self [x; y; z];
      setattr self "axes" (AStr axes)
  | _ => raise TypeError
  end.

(** ** class RotationQuaternion *)

Definition RotationQuaternion__init__ (self : loc) (args : list F) : Py unit :=
  match args with
  | [w; x; y; z] => Coordinates__init__ self [w; x; y; z]
  | _ => raise TypeError
  end.

Definition RotationQuaternion_new (args : list F) : Py loc :=
  new RotationQuaternion (fun self => RotationQuaternion__init__ self args).

Definition RotationEulerRadians_new (args : list F) (axes : string) : Py loc :=
  new RotationEulerRadians (fun self => RotationEuler__init__ self args axes).

Definition RotationEulerDegrees_new (args : list F) (axes : string) : Py loc :=
  new RotationEulerDegrees (fun self => RotationEuler__init__ self args axes).

(** The check shared by the [to_euler] methods:
    [assert units.lower() in ['rad', 'deg']]. *)
Definition assert_units (units : string) : Py unit :=
  if bool_decide (lower units ∈ ["rad"; "deg"]) then mret tt
  else raise (AssertionError EmptyString).

(** ** class RotationEulerRadians *)

Definition RotationEulerRadians_to_radians (self : loc) : Py loc := mret self.

Definition RotationEulerRadians_to_degrees (self : loc) : Py loc :=
  a ← get_array self;
  axes ← getattr_str self "axes";
  RotationEulerDegrees_new (np_degrees <$> a) axes.

Definition RotationEulerRadians_to_quaternion (self : loc) : Py loc :=
  axes ← getattr_str self "_axes";
  a ← get_array self;
  let '(q0, q1, q2, q3) := R_as_quat (R_from_euler (str_tail axes) a false) in
  RotationQuaternion_new [q0; q1; q2; q3].

Definition RotationEulerRadians_to_matrix (self : loc) : Py (list (list F)) :=
  axes ← getattr_str self "axes";
  a ← get_array self;
  mret (set_block33 (np_eye 4) (R_as_matrix (R_from_euler (str_tail axes) a false))).

Definition RotationEulerRadians_to_euler (self : loc) (units : string) : Py loc :=
  _ ← assert_units units;
  if bool_decide (lower units = "rad") then
    a ← get_array self;
    axes ← getattr_str self "axes";
    RotationEulerRadians_new a axes
  else
    a ← get_array self;
    axes ← getattr_str self "axes";
    RotationEulerDegrees_new (np_degrees <$> a) axes.

Definition RotationEulerRadians_from_matrix (matrix : list (list F)) (axes : string) : Py loc :=
  let '(x, y, z) := R_as_euler (R_from_matrix (block33 matrix)) (str_tail axes) false in
  RotationEulerRadians_new [x; y; z] "rxyz".

(** ** class RotationEulerDegrees *)

Definition RotationEulerDegrees_to_radians (self : loc) : Py loc :=
  a ← get_array self;
  axes ← getattr_str self "axes";
  RotationEulerRadians_new (np_radians <$> a) axes.

Definition RotationEulerDegrees_to_degrees (self : loc) : Py loc := mret self.

Definition RotationEulerDegrees_to_quaternion (self : loc) : Py loc :=
  r ← RotationEulerDegrees_to_radians self; RotationEulerRadians_to_quaternion r.

Definition RotationEulerDegrees_to_euler (self : loc) (units : string) : Py loc :=
  r ← RotationEulerDegrees_to_radians self; RotationEulerRadians_to_euler r units.

Definition RotationEulerDegrees_to_matrix (self : loc) : Py (list (list F)) :=
  r ← RotationEulerDegrees_to_radians self; RotationEulerRadians_to_matrix r.

Definition RotationEulerDegrees_from_matrix (matrix : list (list F)) (axes : string) : Py loc :=
  let '(x, y, z) := R_as_euler (R_from_matrix (block33 matrix)) (str_tail axes) true in
  RotationEulerDegrees_new [x; y; z] "rxyz".

(** ** class RotationQuaternion, continued *)

(** [R.from_quat(self)]: scipy is handed the instance itself, where the
    Euler variants hand over [self._array].  The classes of this module
    define [__getitem__] and [__setitem__] and neither [__len__] nor
    [__array__], so numpy finds no sequence of four numbers in the
    instance: the call raises [IndexError] and builds no rotation. *)
Definition R_from_quat_instance (self : loc) : Py Rotation :=
  _ ← deref self; raise IndexError.

Definition RotationQuaternion_to_quaternion (self : loc) : Py loc := mret self.

Definition RotationQuaternion_to_matrix (self : loc) : Py (list (list F)) :=
  r ← R_from_quat_instance self;
  mret (set_block33 (np_eye 4) (R_as_matrix r)).

Definition RotationQuaternion_to_euler (self : loc) (units : string) : Py loc :=
  r ← R_from_quat_instance self;
  let '(x, y, z) := R_as_euler r "xyz" false in
  _ ← assert_units units;
  if bool_decide (lower units = "rad") then
    RotationEulerRadians_new [x; y; z] "rxyz"
  else
    RotationEulerDegrees_new (np_degrees <$> [x; y; z]) "rxyz".

(** ** Method resolution on the class of the receiver *)

Definition to_radians (self : loc) : Py loc :=
  o ← deref self;
  match ob_class o with
  | RotationEulerRadians => RotationEulerRadians_to_radians self
  | RotationEulerDegrees => RotationEulerDegrees_to_radians self
  | _ => raise AttributeError
  end.

Definition to_degrees (self : loc) : Py loc :=
  o ← deref self;
  match ob_class o with
  | RotationEulerRadians => RotationEulerRadians_to_degrees self
  | RotationEulerDegrees => RotationEulerDegrees_to_degrees self
  | _ => raise AttributeError
  end.

Definition to_quaternion (self : loc) : Py loc :=
  o ← deref self;
  match ob_class o with
  | RotationEulerRadians => RotationEulerRadians_to_quaternion self
  | RotationEulerDegrees => RotationEulerDegrees_to_quaternion self
  | RotationQuaternion => RotationQuaternion_to_quaternion self
  | _ => raise AttributeError
  end.

Definition to_euler (self : loc) (units : string) : Py loc :=
  o ← deref self;
  match ob_class o with
  | RotationEulerRadians => RotationEulerRadians_to_euler self units
  | RotationEulerDegrees => RotationEulerDegrees_to_euler self units
  | RotationQuaternion => RotationQuaternion_to_euler self units
  | _ => raise AttributeError
  end.

(** ** class Translation *)

Definition Translation__init__ (self : loc) (args : list F) : Py unit :=
  if decide (length args = 3) then Coordinates__init__ self args
  else raise (AssertionError "Must be xyz coordinates").

Definition Translation_new (args : list F) : Py loc :=
  new Translation (fun self => Translation__init__ self args).

(** The right operand of [+] and [-]: a reference to an object, or a bare
    sequence of numbers. *)
Inductive operand : Type :=
| Ref (l : loc)
| Seq (xs : list F).

(** [isinstance(other, c)] for a class [c] without subclasses. *)
Definition isinstance (o : object) (c : cls) : bool := bool_decide (ob_class o = c).

(** Iterating over the result of a getter. *)
Definition as_tuple (v : pyvalue F) : Py (list F) :=
  match v with
  | Sequence xs => mret xs
  | Scalar _ => raise TypeError
  end.

(** [oth = other.xyz if isinstance(other, Translation) else other], as far
    as [len(oth)] and the iteration need it.  No [__len__] is defined in the
    sources for an object of another class: [len] of it is a [TypeError]. *)
Definition operand_oth (other : operand) : Py (list F) :=
  match other with
  | Ref l =>
      o ← deref l;
      if isinstance o Translation then v ← get l "xyz"; as_tuple v
      else raise TypeError
  | Seq xs => mret xs
  end.

(** [other.xyz]: only an object has attributes. *)
Definition operand_xyz (other : operand) : Py (list F) :=
  match other with
  | Ref l => v ← get l "xyz"; as_tuple v
  | Seq _ => raise AttributeError
  end.

(** [a + b] for a component [a], a float32 number, and an element [b] of
    the operand: numpy (from version 2 on) converts a Python number to
    float32 and adds in float32; a component of another Translation is a
    float32 number already.  The sum of two float32 numbers rounded to
    float32 is what [f32] makes of their binary64 sum. *)
Definition Translation__add__ (self : loc) (other : operand) : Py loc :=
  oth ← operand_oth other;
  if decide (length oth ≠ 3) then raise (ValueError "Other must have length of 3")
  else
    xyz ← (v ← get self "xyz"; as_tuple v);
    Translation_new (zip_with (fun a b => fadd a (f32 b)) xyz oth).

Definition Translation__sub__ (self : loc) (other : operand) : Py loc :=
  oth ← operand_oth other;
  if decide (length oth ≠ 3) then raise (ValueError "Other must have length of 3")
  else
    xyz ← (v ← get self "xyz"; as_tuple v);
    oxyz ← operand_xyz other;
    Translation_new (zip_with fsub xyz oxyz).

(** ** class Scale *)

Definition Scale__init__ (self : loc) (args : list F) : Py unit :=
  let vals := if decide (length args = 1) then args ++ args ++ args else args in
  if decide (length vals = 3) then Coordinates__init__ self vals
  else raise (AssertionError "Must be xyz coordinates").

Definition Scale_new (args : list F) : Py loc :=
  new Scale (fun self => Scale__init__ self args).

(** [a[i]] for an integer [i]. *)
Definition getitem (a : list F) (i : nat) : Py F :=
  match a !! i with
  | Some x => mret x
  | None => raise IndexError
  end.

Definition Scale_to_matrix (self : loc) : Py (list (list F)) :=
  a ← get_array self;
  x ← getitem a 0;
  y ← getitem a 1;
  z ← getitem a 2;
  mret (np_diag [x; y; z; f1]).

Definition Scale_from_matrix (matrix : list (list F)) : Py loc :=
  Scale_new (np_linalg_norm_axis0 (block33 matrix)).

(** ** Vector utilities

    Both functions work on 3-element vectors; the results are 3x3 matrices,
    kept as rows. *)

Definition vec3 : Type := F * F * F.
Definition mat3 : Type := vec3 * vec3 * vec3.

Definition cross_product_matrix (vec : vec3) : mat3 :=
  let '(v0, v1, v2) := vec in
  ((f0, fneg v2, v1),
   (v2, f0, fneg v0),
   (fneg v1, v0, f0)).

(** [np.dot] of two vectors: the sum of the three products.  Over the real
    numbers the order of the additions does not matter.  In floating point
    numpy leaves the order (and the fusing of multiplication and addition)
    to its linear-algebra library, and the last bits of the result depend on
    it; floating-point statements are made only for inputs on which every
    order gives the same number. *)
Definition np_dot (a b : vec3) : F :=
  let '(a0, a1, a2) := a in
  let '(b0, b1, b2) := b in
  fadd (fadd (fmul a0 b0) (fmul a1 b1)) (fmul a2 b2).

(** [np.cross]. *)
Definition np_cross (a b : vec3) : vec3 :=
  let '(a0, a1, a2) := a in
  let '(b0, b1, b2) := b in
  (fsub (fmul a1 b2) (fmul a2 b1),
   fsub (fmul a2 b0) (fmul a0 b2),
   fsub (fmul a0 b1) (fmul a1 b0)).

(** [np.linalg.norm] of a vector. *)
Definition np_linalg_norm (vec : vec3) : F := fsqrt (np_dot vec vec).

Definition vec_div (vec : vec3) (s : F) : vec3 :=
  let '(v0, v1, v2) := vec in (fdiv v0 s, fdiv v1 s, fdiv v2 s).

Definition np_identity3 : mat3 :=
  ((f1, f0, f0), (f0, f1, f0), (f0, f0, f1)).

Definition vec_map2 (f : F -> F -> F) (a b : vec3) : vec3 :=
  let '(a0, a1, a2) := a in
  let '(b0, b1, b2) := b in
  (f a0 b0, f a1 b1, f a2 b2).

(** Elementwise [+] of two matrices. *)
Definition mat_add (m n : mat3) : mat3 :=
  let '(m0, m1, m2) := m in
  let '(n0, n1, n2) := n in
  (vec_map2 fadd m0 n0, vec_map2 fadd m1 n1, vec_map2 fadd m2 n2).

(** [m * s] for a scalar [s]. *)
Definition mat_scale (m : mat3) (s : F) : mat3 :=
  let scale_row (r : vec3) : vec3 :=
    let '(r0, r1, r2) := r in (fmul r0 s, fmul r1 s, fmul r2 s) in
  let '(m0, m1, m2) := m in
  (scale_row m0, scale_row m1, scale_row m2).

Definition mat_transpose (m : mat3) : mat3 :=
  let '((a, b, c), (d, e, f), (g, h, i)) := m in
  ((a, d, g), (b, e, h), (c, f, i)).

(** [np.dot] of two matrices. *)
Definition mat_dot (m n : mat3) : mat3 :=
  let '(c0, c1, c2) := mat_transpose n in
  let row (r : vec3) : vec3 := (np_dot r c0, np_dot r c1, np_dot r c2) in
  let '(m0, m1, m2) := m in
  (row m0, row m1, row m2).

Definition normalize (vec : vec3) : vec3 := vec_div vec (np_linalg_norm vec).

Definition rotation_matrix_between_vectors (from_vec to_vec : vec3) : exn + mat3 :=
  let a := normalize from_vec in
  let b := normalize to_vec in
  let v := np_cross a b in
  let cos := np_dot a b in
  if feqb cos (fneg f1) then
    inl (ValueError "Orientation in complete opposite direction")
  else
    let v_cpm := cross_product_matrix v in
    inr (mat_add (mat_add np_identity3 v_cpm)
                 (mat_scale (mat_dot v_cpm v_cpm) (fadd (fdiv f1 f1) cos))).

(** ** Further methods *)

(** [m[:3, 3] = v]: [v] has three elements, or one that is repeated.  The
    matrix is a float64 array, so the values are stored as they are. *)
Definition set_column3 (m : list (list F)) (v : list F) : exn + list (list F) :=
  match broadcast 3 (Sequence v) with
  | Some vs => inr (zip_with (fun x row => <[3 := x]> row) vs (take 3 m) ++ drop 3 m)
  | None => inl (ValueError "shape mismatch")
  end.

(** [m[:3, 3]] for a matrix with at least one row: the integer index needs
    a fourth column, the slice takes the rows there are.  A list of rows
    cannot tell how many columns a matrix without rows has; the statements
    about [Translation.from_matrix] take a matrix with at least one row. *)
Definition np_column3 (m : list (list F)) : exn + list F :=
  match m with
  | [] => inl IndexError
  | _ :: _ =>
      match mapM (fun row : list F => row !! 3) (take 3 m) with
      | Some col => inr col
      | None => inl IndexError
      end
  end.

Definition Translation_to_matrix (self : loc) : Py (list (list F)) :=
  a ← get_array self;
  lift (set_column3 (np_eye 4) a).

Definition Translation_from_matrix (matrix : list (list F)) : Py loc :=
  col ← lift (np_column3 matrix);
  Translation_new col.

Definition RotationQuaternion_from_matrix (matrix : list (list F)) : Py loc :=
  let '(q0, q1, q2, q3) := R_as_quat (R_from_matrix (block33 matrix)) in
  RotationQuaternion_new [q0; q1; q2; q3].

Definition to_matrix (self : loc) : Py (list (list F)) :=
  o ← deref self;
  match ob_class o with
  | RotationEulerRadians => RotationEulerRadians_to_matrix self
  | RotationEulerDegrees => RotationEulerDegrees_to_matrix self
  | RotationQuaternion => RotationQuaternion_to_matrix self
  | Translation => Translation_to_matrix self
  | Scale => Scale_to_matrix self
  | Coordinates => raise AttributeError
  end.

(** The sum of the products of two sequences, from the first pair on. *)
Definition dot_list (r v : list F) : F :=
  match zip_with fmul r v with
  | [] => f0
  | p :: ps => foldl fadd p ps
  end.

(** [np.dot(m, v)] for a matrix and a one-dimensional vector.  The order in
    which numpy adds the products is left to its linear-algebra library;
    the statements about [rotate] use the shape of the result only. *)
Definition np_dot_mv (m : list (list F)) (v : list F) : exn + list F :=
  if forallb (fun row : list F => length row =? length v) m then
    inr ((fun row => dot_list row v) <$> m)
  else inl (ValueError "shapes not aligned").

(** [RotationBase.rotate]; the method exists on the rotation classes. *)
Definition rotate (self : loc) (vector : list F) : Py (list F) :=
  o ← deref self;
  match ob_class o with
  | RotationEulerRadians | RotationEulerDegrees | RotationQuaternion =>
      m ← to_matrix self;
      lift (np_dot_mv (block33 m) vector)
  | _ => raise AttributeError
  end.

(** The argument of [__getitem__]: an integer, or [slice(start, stop, step)]
    with a part left out where it is [None]. *)
Inductive index : Type :=
| Int (i : Z)
| Slice (start stop step : option Z).

(** [a[i]] for an integer: a negative [i] counts from the end. *)
Definition np_getitem_int (a : list F) (i : Z) : exn + F :=
  let n := Z.of_nat (length a) in
  if bool_decide (- n ≤ i < n)%Z then
    match a !! Z.to_nat (if bool_decide (i < 0)%Z then i + n else i)%Z with
    | Some x => inr x
    | None => inl IndexError
    end
  else inl IndexError.

(** How a bound of a slice is brought into range for a sequence of length
    [n]. *)
Definition slice_adjust (n step v : Z) : Z :=
  if bool_decide (v < 0)%Z then
    if bool_decide (v + n < 0)%Z then (if bool_decide (step < 0)%Z then -1 else 0)%Z
    else (v + n)%Z
  else if bool_decide (n ≤ v)%Z then (if bool_decide (step < 0)%Z then n - 1 else n)%Z
  else v.

(** The positions a slice selects in a sequence of length [n]. *)
Definition slice_indices (n : Z) (start stop step : option Z) : exn + list Z :=
  let st := default 1%Z step in
  if bool_decide (st = 0)%Z then inl (ValueError "slice step cannot be zero")
  else
    let lo := match start with
              | Some v => slice_adjust n st v
              | None => if bool_decide (st < 0)%Z then (n - 1)%Z else 0%Z
              end in
    let hi := match stop with
              | Some v => slice_adjust n st v
              | None => if bool_decide (st < 0)%Z then (-1)%Z else n
              end in
    let len := if bool_decide (st < 0)%Z
               then (if bool_decide (hi < lo)%Z then (lo - hi - 1) / (- st) + 1 else 0)%Z
               else (if bool_decide (lo < hi)%Z then (hi - lo - 1) / st + 1 else 0)%Z in
    inr ((fun k => lo + Z.of_nat k * st)%Z <$> seq 0 (Z.to_nat len)).

(** [a[start:stop:step]]. *)
Definition np_getitem_slice (a : list F) (start stop step : option Z) : exn + list F :=
  match slice_indices (Z.of_nat (length a)) start stop step with
  | inr idxs =>
      match mapM (fun i => a !! Z.to_nat i) idxs with
      | Some xs => inr xs
      | None => inl IndexError
      end
  | inl e => inl e
  end.

Definition Coordinates__getitem__ (self : loc) (item : index) : Py (pyvalue F) :=
  a ← get_array self;
  match item with
  | Slice start stop step =>
      xs ← lift (np_getitem_slice a start stop step);
      mret (Sequence xs)
  | Int i =>
      x ← lift (np_getitem_int a i);
      mret (Scalar x)
  end.

End Model.

(** ** Two number systems *)

(** Rounding of a binary64 number to the nearest binary32 number (ties to
    even), the result kept as a binary64 number. *)
Definition f32_round (x : float) : float :=
  match Prim2SF x with
  | S754_finite s m e => SF2Prim (binary_round 24 128 s m e)
  | _ => x
  end.

(** IEEE 754 binary64, the arithmetic of Python floats and of numpy's
    [float64]. *)
#[global] Instance float64 : Arith float := {|
  f0 := 0%float;
  f1 := 1%float;
  fadd := PrimFloat.add;
  fsub := PrimFloat.sub;
  fmul := PrimFloat.mul;
  fdiv := PrimFloat.div;
  fneg := PrimFloat.opp;
  fsqrt := PrimFloat.sqrt;
  feqb := PrimFloat.eqb;
  f32 := f32_round
|}.

(** *** The orders in which a dot product can be evaluated

    numpy hands [np.dot] of two float64 vectors to its linear-algebra
    library, which may add the three products in any order and may fuse a
    multiplication with the addition that follows it. *)

(** [x * y + z] with one rounding: the product and the sum are taken at a
    precision of 300 bits, which is exact for the operands of the statements
    that use it, and the result is rounded to binary64. *)
Definition fused_multiply_add (x y z : float) : float :=
  match SFadd 300 4000 (SFmul 300 4000 (Prim2SF x) (Prim2SF y)) (Prim2SF z) with
  | S754_finite s m e => SF2Prim (binary_round 53 1024 s m e)
  | r => SF2Prim r
  end.

(** The values of [a0 * b0 + a1 * b1 + a2 * b2] for the six orders of the
    three terms, each evaluated without fusing, with both additions fused,
    and with one of them fused. *)
Definition np_dot_evaluations (a b : float * float * float) : list float :=
  let '(a0, a1, a2) := a in
  let '(b0, b1, b2) := b in
  flat_map (fun '(x, y, z) =>
     let '(x0, x1) := x in
     let '(y0, y1) := y in
     let '(z0, z1) := z in
     [ (x0 * x1 + y0 * y1) + z0 * z1;
       fused_multiply_add z0 z1 (fused_multiply_add y0 y1 (x0 * x1));
       fused_multiply_add y0 y1 (x0 * x1) + z0 * z1;
       fused_multiply_add z0 z1 (x0 * x1 + y0 * y1) ])%float
    [((a0, b0), (a1, b1), (a2, b2)); ((a0, b0), (a2, b2), (a1, b1));
     ((a1, b1), (a0, b0), (a2, b2)); ((a1, b1), (a2, b2), (a0, b0));
     ((a2, b2), (a0, b0), (a1, b1)); ((a2, b2), (a1, b1), (a0, b0))].

(** Real numbers: floats without rounding. *)
#[global] Instance real : Arith R := {|
  f0 := 0%R;
  f1 := 1%R;
  fadd := Rplus;
  fsub := Rminus;
  fmul := Rmult;
  fdiv := Rdiv;
  fneg := Ropp;
  fsqrt := sqrt;
  feqb := fun x y => if Req_dec_T x y then true else false;
  f32 := fun x => x
|}.

(** ** Vocabulary of the statements *)

Section Vocabulary.
Context {F : Type} `{Arith F}.

(** The class namespace after the properties for the letter sequences [xs]
    have been set on class [c]. *)
Definition install_from (xs : list (list ascii)) (c : cls)
    (ns : gmap (cls * string) property) : gmap (cls * string) property :=
  foldl (fun ns' args =>
           match gen_getter_setter_funs c args with
           | Some p => <[(c, string_of_list_ascii args) := p]> ns'
           | None => ns'
           end) ns xs.

Definition install (c : cls) (ns : gmap (cls * string) property) :
    gmap (cls * string) property :=
  install_from (accessor_args c) c ns.

(** Every accessor of class [c] is present in the namespace [ns]. *)
Definition installed (ns : gmap (cls * string) property) (c : cls) : Prop :=
  ∀ args, args ∈ accessor_args c →
    ns !! (c, string_of_list_ascii args) = gen_getter_setter_funs c args.

(** The world after one instantiation of class [c] that ends with the
    instance dictionary [d]. *)
Definition instantiated (c : cls) (d : gmap string (attr (F:=F))) (w : world (F:=F)) :
    world (F:=F) :=
  World (heap w ++ [Object c d]) (install c (class_ns w)) (observed w).

(** [l] refers to an initialised instance of class [c] with component
    array [a]. *)
Definition instance (w : world (F:=F)) (l : loc) (c : cls) (a : list F) : Prop :=
  ∃ d, heap w !! l = Some (Object c d) ∧
       d !! "_array" = Some (AArray a) ∧
       installed (class_ns w) c.

(** The world after [l] has become the object [o'] and the observers have
    been told so. *)
Definition updated (l : loc) (o' : object (F:=F)) (w : world (F:=F)) : world (F:=F) :=
  World (<[l := o']> (heap w)) (class_ns w) (observed w ++ [(l, o')]).

(** [l] refers to an initialised Euler rotation of class [c] (radians or
    degrees) with angles [a] and axes spec [axes]. *)
Definition euler_instance (w : world (F:=F)) (l : loc) (c : cls) (a : list F)
    (axes : string) : Prop :=
  (c = RotationEulerRadians ∨ c = RotationEulerDegrees) ∧
  length a = 3 ∧
  ∃ d, heap w !! l = Some (Object c d) ∧
       d !! "_array" = Some (AArray a) ∧
       d !! "axes" = Some (AStr axes) ∧
       d !! "_axes" = None ∧
       installed (class_ns w) c.

(** The computation [m] returns a reference to an object that did not exist
    before and leaves every existing object as it was; afterwards a write
    through an accessor of the new object changes no other object, and a
    write to another object does not change the new one. *)
Definition fresh_result (m : Py (F:=F) loc) (w : world (F:=F)) : Prop :=
  ∃ l' w',
    m w = (inr l', w') ∧
    heap w !! l' = None ∧
    is_Some (heap w' !! l') ∧
    (∀ k o, heap w !! k = Some o → heap w' !! k = Some o) ∧
    (∀ k name v w'', k ≠ l' →
       set l' name v w' = (inr tt, w'') → heap w'' !! k = heap w' !! k) ∧
    (∀ k name v w'', k ≠ l' →
       set k name v w' = (inr tt, w'') → heap w'' !! l' = heap w' !! l').

(** The shape in which a getter hands back the components [xs]. *)
Definition packed (xs : list F) : pyvalue F :=
  match xs with
  | [x] => Scalar x
  | _ => Sequence xs
  end.

(** The components of [a] named by the letters [P] of class [c], in the
    order of [P]. *)
Definition components (c : cls) (a : list F) (P : list ascii) : option (list F) :=
  mapM (fun k => i ← dict_get (coords c) k; a !! i) P.

(** The value that the latest of the writes [ivs] (index, value) left at
    index [i], if any of them went there. *)
Fixpoint last_write (ivs : list (nat * F)) (i : nat) : option F :=
  match ivs with
  | [] => None
  | (j, x) :: rest =>
      match last_write rest i with
      | Some y => Some y
      | None => if decide (j = i) then Some x else None
      end
  end.

End Vocabulary.

Section MoreVocabulary.
Context {F : Type} `{Arith F}.

(** The namespace [ns] holds nothing but generated accessors. *)
Definition only_accessors (ns : gmap (cls * string) property) : Prop :=
  ∀ c name p, ns !! (c, name) = Some p →
    ∃ args, args ∈ accessor_args c ∧ name = string_of_list_ascii args.

(** The computation [m] leaves the world as it is, whether it returns or
    raises. *)
Definition pure {A} (m : Py (F:=F) A) : Prop :=
  ∀ w r w', m w = (r, w') → w' = w.

(** A 3x3 matrix applied to a 3-vector ([np.dot] of the two). *)
Definition mat_vec (m : F * F * F * (F * F * F) * (F * F * F)) (v : F * F * F) :
    F * F * F :=
  let '(m0, m1, m2) := m in (np_dot m0 v, np_dot m1 v, np_dot m2 v).

End MoreVocabulary.

Section RotationVocabulary.
Context {F : Type} `{Arith F} `{Backend F}.

(** [m] has three rows of three entries. *)
Definition shape33 (m : list (list F)) : Prop :=
  length m = 3 ∧ Forall (fun row => length row = 3) m.

(** The 4x4 matrix with [res] in the upper-left block and the last row and
    column of the identity. *)
Definition homogeneous (res : list (list F)) : list (list F) :=
  ((fun row => row ++ [f0]) <$> res) ++ [[f0; f0; f0; f1]].

(** The angles in radians of an Euler instance of class [c] with components
    [a]: a degrees variant is converted, and the converted angles are
    stored as float32. *)
Definition radians_of (c : cls) (a : list F) : list F :=
  if decide (c = RotationEulerDegrees) then np_array (np_radians <$> a) else a.

(** The scipy rotation that [to_matrix] builds for an Euler instance of
    class [c] with components [a] and axes spec [axes]. *)
Definition as_rotation (c : cls) (a : list F) (axes : string) : Rotation :=
  R_from_euler (str_tail axes) (radians_of c a) false.

End RotationVocabulary.

(** ** The vector utility in the words of the specification

    Over the real numbers, and without the helper functions of the model. *)

(** [to_vec] points exactly opposite to [from_vec]: it is a negative
    multiple of it. *)
Definition opposite (from_vec to_vec : R * R * R) : Prop :=
  ∃ k : R, (0 < k)%R ∧
    to_vec = (let '(x0, x1, x2) := from_vec in (- k * x0, - k * x1, - k * x2))%R.

(** A vector scaled to length one. *)
Definition unit_vector (x : R * R * R) : R * R * R :=
  let '(x0, x1, x2) := x in
  let n := sqrt (x0 * x0 + x1 * x1 + x2 * x2) in
  (x0 / n, x1 / n, x2 / n)%R.

Definition cross_product (a b : R * R * R) : R * R * R :=
  let '(a0, a1, a2) := a in
  let '(b0, b1, b2) := b in
  (a1 * b2 - a2 * b1, a2 * b0 - a0 * b2, a0 * b1 - a1 * b0)%R.

Definition dot_product (a b : R * R * R) : R :=
  let '(a0, a1, a2) := a in
  let '(b0, b1, b2) := b in
  (a0 * b0 + a1 * b1 + a2 * b2)%R.

(** [I + skew(v) + skew(v) . skew(v) * k], entry by entry.  The skew matrix
    of [v] has the rows [(0, -v2, v1)], [(v2, 0, -v0)], [(-v1, v0, 0)]; its
    square has [-(vj^2 + vk^2)] on the diagonal and [vi vj] elsewhere. *)
Definition skew_formula (v : R * R * R) (k : R) :
    (R * R * R) * (R * R * R) * (R * R * R) :=
  let '(v0, v1, v2) := v in
  ((1 - (v1 * v1 + v2 * v2) * k, v0 * v1 * k - v2, v0 * v2 * k + v1),
   (v0 * v1 * k + v2, 1 - (v0 * v0 + v2 * v2) * k, v1 * v2 * k - v0),
   (v0 * v2 * k - v1, v1 * v2 * k + v0, 1 - (v0 * v0 + v1 * v1) * k))%R.

(** The formula as the source combines it: the last term is multiplied by
    [1 + cos]. *)
Definition literal_formula (a b : R * R * R) :
    (R * R * R) * (R * R * R) * (R * R * R) :=
  skew_formula (cross_product a b) (1 + dot_product a b).


(** A binary64 number, seen through its IEEE 754 description, is not
    negative: it is a zero, a NaN, or has the sign bit clear. *)
Definition not_negative (x : spec_float) : Prop :=
  match x with
  | S754_infinity s | S754_finite s _ _ => s = false
  | _ => True
  end.

(** ** Concrete inputs for the examples *)

(** A backend in which every rotation is the identity rotation.  It serves
    only to run the methods in closed examples; the theorems are stated for
    an arbitrary backend. *)
#[global] Instance identity_backend : Backend float := {|
  np_degrees := fun x => f32_round (x * 0x1.ca5dc1a63c1f8p+5)%float;
  np_radians := fun x => f32_round (x * 0x1.1df46a2529d39p-6)%float;
  Rotation := unit;
  R_from_euler := fun _ _ _ => tt;
  R_from_matrix := fun _ => tt;
  R_as_quat := fun _ => (0, 0, 0, 1)%float;
  R_as_matrix := fun _ => [[1; 0; 0]; [0; 1; 0]; [0; 0; 1]]%float;
  R_as_euler := fun _ _ _ => (0, 0, 0)%float
|}.

(** The world that holds [RotationEulerRadians(1, 2, 3)] at reference [0]. *)
Definition world_r123 : world (F:=float) :=
  (RotationEulerRadians_new [1; 2; 3]%float "rxyz" empty_world).2.

(** The world that holds [Translation(1, 2, 3)] at reference [0]. *)
Definition world_t123 : world (F:=float) :=
  (Translation_new [1; 2; 3]%float empty_world).2.

(** The world over the real numbers that holds [Scale(-2, 1, 1)] at
    reference [0]. *)
Definition world_s211 : world (F:=R) :=
  (Scale_new [-2; 1; 1]%R empty_world).2.

(** The world that holds [RotationQuaternion(1, 0, 0, 0)] at reference
    [0]. *)
Definition world_q1000 : world (F:=float) :=
  (RotationQuaternion_new [1; 0; 0; 0]%float empty_world).2.

(** The world that holds [Coordinates(1, 2)], an instance of the base class
    with two components, at reference [0]. *)
Definition world_c12 : world (F:=float) :=
  (new Coordinates (fun self => Coordinates__init__ self [1; 2]%float) empty_world).2.

(** * Properties *)

(** ** The generated accessor names *)

Lemma elem_of_product {A} (keys : list A) (n : nat) (l : list A) :
  l ∈ product keys n ↔ length l = n ∧ Forall (.∈ keys) l.
Proof.
  revert l. induction n as [|n IH]; intros l; simpl.
  - rewrite list_elem_of_singleton. split.
    + intros ->. by split.
    + intros [Hl _]. by destruct l.
  - rewrite list_elem_of_bind. split.
    + intros (k & Hl & Hk). apply list_elem_of_fmap in Hl as (t & -> & Ht).
      apply IH in Ht as [<- Ht]. split; [done|]. by constructor.
    + intros [Hlen Hall]. destruct l as [|k t]; [done|].
      inversion Hall; subst. exists k. split; [|done].
      apply list_elem_of_fmap. exists t. split; [done|].
      apply IH. split; [|done]. simpl in Hlen. lia.
Qed.

(** [accessor_args c] holds exactly the non-empty sequences of axis letters
    of [c], repetitions allowed, no longer than the axis map. *)
Lemma elem_of_accessor_args (c : cls) (args : list ascii) :
  args ∈ accessor_args c ↔
  1 ≤ length args ≤ length (coords c) ∧ Forall (.∈ dict_keys (coords c)) args.
Proof.
  unfold accessor_args. rewrite list_elem_of_bind. split.
  - intros (n & Hargs & Hn). apply elem_of_product in Hargs as [<- Hall].
    apply elem_of_seq in Hn. split; [lia|done].
  - intros [Hlen Hall]. exists (length args). split.
    + by apply elem_of_product.
    + apply elem_of_seq. lia.
Qed.

(** Three axes give 3 + 9 + 27 accessors, four axes 4 + 16 + 64 + 256. *)
Lemma accessor_args_length (c : cls) :
  length (accessor_args c) = if decide (c = RotationQuaternion) then 340 else 39.
Proof. by destruct c. Qed.

Lemma dict_get_is_Some (d : list (ascii * nat)) (k : ascii) :
  k ∈ dict_keys d → is_Some (dict_get d k).
Proof.
  unfold dict_keys. induction d as [|[k' v] d IH]; simpl.
  - by intros ?%elem_of_nil.
  - intros Hk. destruct (decide (k' = k)); [by eexists|].
    apply IH. apply elem_of_cons in Hk as [->|Hk]; done.
Qed.

Lemma gen_getter_setter_funs_Some (c : cls) (args : list ascii) :
  Forall (.∈ dict_keys (coords c)) args →
  ∃ indices, mapM (dict_get (coords c)) args = Some indices ∧
             gen_getter_setter_funs c args = Some (Property args indices).
Proof.
  intros Hall.
  destruct (mapM (dict_get (coords c)) args) as [indices|] eqn:E.
  - exists indices. split; [done|]. unfold gen_getter_setter_funs. by rewrite E.
  - apply mapM_None in E. apply Exists_exists in E as (k & Hk & Hnone).
    rewrite Forall_forall in Hall. apply Hall, dict_get_is_Some in Hk as [? Hk].
    congruence.
Qed.

Lemma gen_getter_setter_funs_accessor (c : cls) (args : list ascii) :
  args ∈ accessor_args c → is_Some (gen_getter_setter_funs c args).
Proof.
  intros [_ Hall]%elem_of_accessor_args.
  destruct (gen_getter_setter_funs_Some c args Hall) as (? & _ & ->). by eexists.
Qed.

Lemma string_of_list_ascii_inj (l1 l2 : list ascii) :
  string_of_list_ascii l1 = string_of_list_ascii l2 → l1 = l2.
Proof.
  intros E. rewrite <- (list_ascii_of_string_of_list_ascii l1).
  rewrite E. apply list_ascii_of_string_of_list_ascii.
Qed.

Section Facts.
Context {F : Type} `{Arith F}.

Implicit Types (w : world (F:=F)) (l self : loc) (c : cls) (a : list F).
Implicit Types (ns : gmap (cls * string) property).

(** ** The monad *)

Lemma bind_inr {A B} (m : Py (F:=F) A) (k : A → Py (F:=F) B) w x w' :
  m w = (inr x, w') → (m ≫= k) w = k x w'.
Proof. unfold mbind, Py_bind. by intros ->. Qed.

Lemma bind_inl {A B} (m : Py (F:=F) A) (k : A → Py (F:=F) B) w e w' :
  m w = (inl e, w') → (m ≫= k) w = (inl e, w').
Proof. unfold mbind, Py_bind. by intros ->. Qed.

Lemma world_eta w : World (heap w) (class_ns w) (observed w) = w.
Proof. by destruct w. Qed.

(** ** Installing the accessors *)

Lemma for_each_install c xs w :
  Forall (fun args => is_Some (gen_getter_setter_funs c args)) xs →
  for_each xs (fun args =>
    match gen_getter_setter_funs c args with
    | Some p => class_setattr c (string_of_list_ascii args) p
    | None => raise KeyError
    end) w
  = (inr tt, World (heap w) (install_from xs c (class_ns w)) (observed w)).
Proof.
  intros Hall. revert w. induction Hall as [|args xs [p Hp] _ IH]; intros w; simpl.
  - by rewrite world_eta.
  - unfold mbind, Py_bind. rewrite Hp. unfold class_setattr at 1. by rewrite IH.
Qed.

Lemma install_from_lookup_ne xs c ns k :
  (∀ args, args ∈ xs → k ≠ (c, string_of_list_ascii args)) →
  install_from xs c ns !! k = ns !! k.
Proof.
  revert ns. induction xs as [|x xs IH]; intros ns Hk; simpl; [done|].
  rewrite IH.
  - destruct (gen_getter_setter_funs c x); [|done].
    rewrite lookup_insert_ne; [done|]. intros <-.
    by eapply (Hk x); [apply list_elem_of_here|].
  - intros args Hargs. by apply Hk, list_elem_of_further.
Qed.

Lemma install_from_lookup xs c ns args :
  args ∈ xs →
  is_Some (gen_getter_setter_funs c args) →
  install_from xs c ns !! (c, string_of_list_ascii args) = gen_getter_setter_funs c args.
Proof.
  intros Hin [p Hp]. revert ns. induction xs as [|x xs IH]; intros ns; simpl.
  - by apply elem_of_nil in Hin.
  - destruct (decide (args ∈ xs)) as [Hxs|Hxs]; [by apply IH|].
    apply elem_of_cons in Hin as [->|Hin]; [|done].
    rewrite install_from_lookup_ne.
    + rewrite Hp. by rewrite lookup_insert_eq.
    + intros args Hargs [= E%string_of_list_ascii_inj]. by subst.
Qed.

Lemma installed_install c ns : installed (install c ns) c.
Proof.
  intros args Hargs. apply install_from_lookup; [done|].
  by apply gen_getter_setter_funs_accessor.
Qed.

Lemma installed_install_other c c' ns :
  installed ns c' → installed (install c ns) c'.
Proof.
  intros Hc'. destruct (decide (c = c')) as [->|Hne]; [apply installed_install|].
  intros args Hargs. unfold install. rewrite install_from_lookup_ne; [by apply Hc'|].
  intros ? _ [= ? _]. done.
Qed.

End Facts.

(** ** Allocation and initialisation *)

Section Objects.
Context {F : Type} `{Arith F}.

Implicit Types (w : world (F:=F)) (l self : loc) (c : cls) (a : list F).
Implicit Types (d : gmap string (attr (F:=F))) (h : list (object (F:=F))).

Lemma lookup_snoc_new h (o : object) : (h ++ [o]) !! length h = Some o.
Proof. by rewrite lookup_app_r, Nat.sub_diag. Qed.

Lemma insert_snoc_new h (o o' : object) : <[length h := o']> (h ++ [o]) = h ++ [o'].
Proof. by rewrite insert_app_r_alt, Nat.sub_diag. Qed.

Lemma setattr_spec self name v w c d :
  heap w !! self = Some (Object c d) →
  setattr self name v w =
    (inr tt, World (<[self := Object c (<[name := v]> d)]> (heap w)) (class_ns w) (observed w)).
Proof. unfold setattr. by intros ->. Qed.

Lemma _init_coord_properties_spec self w c d :
  heap w !! self = Some (Object c d) →
  _init_coord_properties self w =
    (inr tt, World (heap w) (install c (class_ns w)) (observed w)).
Proof.
  intros Hl. unfold _init_coord_properties.
  erewrite bind_inr by (unfold deref; by rewrite Hl).
  simpl. apply for_each_install.
  apply Forall_forall. intros args. apply gen_getter_setter_funs_accessor.
Qed.

Lemma Coordinates__init___spec self args w c d :
  heap w !! self = Some (Object c d) →
  Coordinates__init__ self args w =
    (inr tt, World (<[self := Object c (<["_array" := AArray (np_array args)]> d)]> (heap w))
                   (install c (class_ns w)) (observed w)).
Proof.
  intros Hl. unfold Coordinates__init__, IterObservable__init__.
  erewrite bind_inr by reflexivity.
  erewrite bind_inr by (by apply setattr_spec).
  erewrite _init_coord_properties_spec; [done|]. simpl.
  apply list_lookup_insert_eq. by eapply lookup_lt_Some.
Qed.

(** Instantiating a class whose initialiser is [Coordinates.__init__]. *)
Lemma new_Coordinates c args w :
  new c (fun self => Coordinates__init__ self args) w =
    (inr (length (heap w)),
     instantiated c (<["_array" := AArray (np_array args)]> ∅) w).
Proof.
  unfold new. erewrite bind_inr by reflexivity.
  erewrite bind_inr by (apply Coordinates__init___spec; simpl; apply lookup_snoc_new).
  simpl. unfold instantiated. by rewrite insert_snoc_new.
Qed.

Lemma heap_instantiated_old c d w l (o : object) :
  heap w !! l = Some o → heap (instantiated c d w) !! l = Some o.
Proof. intros Hl. simpl. by apply lookup_app_l_Some. Qed.

Lemma heap_instantiated_new c d w :
  heap (instantiated c d w) !! length (heap w) = Some (Object c d).
Proof. simpl. apply lookup_snoc_new. Qed.

Lemma instance_instantiated_old c d w l c' a :
  instance w l c' a → instance (instantiated c d w) l c' a.
Proof.
  intros (d' & Hl & Ha & Hns). exists d'. split_and!; [|done|].
  - by apply heap_instantiated_old.
  - by apply installed_install_other.
Qed.

Lemma instance_instantiated_new c d w a :
  d !! "_array" = Some (AArray a) →
  instance (instantiated c d w) (length (heap w)) c a.
Proof.
  intros Ha. exists d. split_and!; [|done|].
  - apply heap_instantiated_new.
  - apply installed_install.
Qed.

Lemma instance_lt w l c a : instance w l c a → l < length (heap w).
Proof. intros (d & Hl & _). by eapply lookup_lt_Some. Qed.

End Objects.

(** ** Generated accessors *)

Section Accessors.
Context {F : Type} `{Arith F}.

Implicit Types (w : world (F:=F)) (l self : loc) (c : cls) (a : list F).
Implicit Types (d : gmap string (attr (F:=F))) (P : list ascii) (idxs : list nat).

Lemma coords_in_range c k i : dict_get (coords c) k = Some i → i < length (coords c).
Proof. destruct c; simpl; repeat case_decide; intros; simplify_eq; lia. Qed.

Lemma coords_inj c k1 k2 i :
  dict_get (coords c) k1 = Some i → dict_get (coords c) k2 = Some i → k1 = k2.
Proof. destruct c; simpl; repeat case_decide; intros; simplify_eq; congruence. Qed.

Lemma indices_in_range c P idxs :
  mapM (dict_get (coords c)) P = Some idxs → Forall (fun i => i < length (coords c)) idxs.
Proof.
  intros Hm%mapM_Some. induction Hm as [|k i P idxs Hk _ IH]; constructor; [|done].
  by eapply coords_in_range.
Qed.

Lemma indices_NoDup c P idxs :
  mapM (dict_get (coords c)) P = Some idxs → NoDup P → NoDup idxs.
Proof.
  intros Hm%mapM_Some. induction Hm as [|k i P idxs Hk Hm IH]; intros Hnd; [constructor|].
  apply NoDup_cons in Hnd as [Hk' Hnd]. apply NoDup_cons. split; [|by apply IH].
  intros Hi. apply Hk'. clear IH Hk' Hnd.
  induction Hm as [|k' i' P idxs Hk'' _ IH]; [by apply elem_of_nil in Hi|].
  apply elem_of_cons in Hi as [->|Hi].
  - rewrite (coords_inj c k k' i' Hk Hk''). apply list_elem_of_here.
  - by apply list_elem_of_further, IH.
Qed.

Lemma components_indices c a P idxs :
  mapM (dict_get (coords c)) P = Some idxs →
  components c a P = mapM (fun i => a !! i) idxs.
Proof.
  unfold components. revert idxs. induction P as [|k P IH]; intros idxs Hm; simpl in *.
  - by injection Hm as <-.
  - destruct (dict_get (coords c) k) as [i|]; simpl in *; [|done].
    destruct (mapM (dict_get (coords c)) P) as [idxs'|]; simpl in *; [|done].
    injection Hm as <-. simpl. by rewrite (IH idxs').
Qed.

Lemma lookups_is_Some a idxs :
  Forall (fun i => i < length a) idxs → is_Some (mapM (fun i => a !! i) idxs).
Proof.
  intros Hall. apply mapM_is_Some. eapply Forall_impl; [done|].
  intros i Hi. by apply lookup_lt_is_Some.
Qed.

Lemma get_array_spec w l c a : instance w l c a → get_array l w = (inr a, w).
Proof.
  intros (d & Hl & Ha & _). unfold get_array, getattr.
  erewrite bind_inr; [|erewrite bind_inr by (unfold deref; by rewrite Hl); simpl; by rewrite Ha].
  done.
Qed.

Lemma find_property_spec w l c a P idxs :
  instance w l c a →
  P ∈ accessor_args c →
  mapM (dict_get (coords c)) P = Some idxs →
  find_property l (string_of_list_ascii P) w = (inr (Property P idxs), w).
Proof.
  intros (d & Hl & _ & Hns) HP Hm. unfold find_property. rewrite Hl. simpl.
  rewrite (Hns P HP). unfold gen_getter_setter_funs. by rewrite Hm.
Qed.

Lemma getter_spec w l c a P idxs :
  instance w l c a → P ≠ [] → length idxs = length P →
  getter (Property P idxs) l w =
    match mapM (fun i => a !! i) idxs with
    | Some xs => (inr (packed xs), w)
    | None => (inl IndexError, w)
    end.
Proof.
  intros Hi HP Hlen. unfold getter.
  erewrite bind_inr by (by eapply get_array_spec). simpl.
  case_decide as Hlt.
  - unfold np_getitem. destruct (mapM _ idxs) as [xs|] eqn:E; [|done].
    apply length_mapM in E. destruct xs as [|x [|y xs]]; simpl in *; try done; lia.
  - destruct P as [|k [|k' P]]; simpl in *; [done| |lia].
    destruct idxs as [|i [|i' idxs]]; simpl in *; try done.
    by destruct (a !! i).
Qed.

(** Reading through a generated accessor: the components named by the
    letters, in the order of the letters. *)
Lemma get_spec w l c a P :
  instance w l c a → P ∈ accessor_args c →
  get l (string_of_list_ascii P) w =
    match components c a P with
    | Some xs => (inr (packed xs), w)
    | None => (inl IndexError, w)
    end.
Proof.
  intros Hi HP. pose proof HP as [[Hlen _] Hall]%elem_of_accessor_args.
  destruct (gen_getter_setter_funs_Some c P Hall) as (idxs & Hm & _).
  unfold get. erewrite bind_inr by (by eapply find_property_spec).
  rewrite (components_indices c a P idxs Hm).
  eapply getter_spec; [done| |].
  - intros ->. simpl in Hlen. lia.
  - symmetry. by eapply length_mapM.
Qed.

Lemma setter_spec w l c d a p value :
  heap w !! l = Some (Object c d) →
  d !! "_array" = Some (AArray a) →
  setter p l value w =
    match np_setitem a (p_indices p) value with
    | inr a' => (inr tt, updated l (Object c (<["_array" := AArray a']> d)) w)
    | inl e => (inl e, w)
    end.
Proof.
  intros Hl Ha. unfold setter.
  erewrite bind_inr; cycle 1.
  { unfold get_array, getattr.
    erewrite bind_inr; [|erewrite bind_inr by (unfold deref; by rewrite Hl); simpl; by rewrite Ha].
    done. }
  destruct (np_setitem a (p_indices p) value) as [e|a'] eqn:E.
  - by erewrite bind_inl by reflexivity.
  - erewrite bind_inr by reflexivity.
    erewrite bind_inr by (by apply setattr_spec).
    unfold notify_observers, updated. simpl.
    rewrite list_lookup_insert_eq; [done|]. by eapply lookup_lt_Some.
Qed.

Lemma write_length (ivs : list (nat * F)) a :
  length (foldl (fun a' iv => <[iv.1 := f32 iv.2]> a') a ivs) = length a.
Proof.
  revert a. induction ivs as [|iv ivs IH]; intros a; simpl; [done|].
  by rewrite IH, length_insert.
Qed.

(** After a scatter write every index holds what the last write to it left,
    and an index that was not written keeps its content. *)
Lemma write_lookup (ivs : list (nat * F)) a i :
  Forall (fun iv => iv.1 < length a) ivs →
  foldl (fun a' iv => <[iv.1 := f32 iv.2]> a') a ivs !! i =
    match last_write ivs i with
    | Some y => Some (f32 y)
    | None => a !! i
    end.
Proof.
  revert a. induction ivs as [|[j x] ivs IH]; intros a Hall; simpl; [done|].
  apply Forall_cons in Hall as [Hj Hall]. simpl in Hj.
  rewrite IH by (eapply Forall_impl; [done|]; intros ?; by rewrite length_insert).
  destruct (last_write ivs i); [done|].
  case_decide as Hji.
  - subst. by rewrite list_lookup_insert_eq.
  - by rewrite list_lookup_insert_ne.
Qed.

Lemma np_setitem_Sequence a idxs (vs : list F) :
  Forall (fun i => i < length a) idxs → length vs = length idxs →
  np_setitem a idxs (Sequence vs) =
    inr (foldl (fun a' iv => <[iv.1 := f32 iv.2]> a') a (zip idxs vs)).
Proof.
  intros Hall Hlen. unfold np_setitem.
  assert (forallb (fun i => i <? length a) idxs = true) as ->.
  { apply forallb_forall. intros i Hi%list_elem_of_In.
    rewrite Forall_forall in Hall. apply Nat.ltb_lt. by apply Hall. }
  simpl. by rewrite decide_True.
Qed.

Lemma np_setitem_Scalar a idxs (x : F) :
  Forall (fun i => i < length a) idxs →
  np_setitem a idxs (Scalar x) =
    inr (foldl (fun a' iv => <[iv.1 := f32 iv.2]> a') a (zip idxs (replicate (length idxs) x))).
Proof.
  intros Hall. unfold np_setitem.
  assert (forallb (fun i => i <? length a) idxs = true) as ->; [|done].
  apply forallb_forall. intros i Hi%list_elem_of_In.
  rewrite Forall_forall in Hall. apply Nat.ltb_lt. by apply Hall.
Qed.

Lemma last_write_zip_is_Some idxs (vs : list F) i :
  length vs = length idxs → i ∈ idxs → is_Some (last_write (zip idxs vs) i).
Proof.
  revert vs. induction idxs as [|j idxs IH]; intros vs Hlen Hi.
  - by apply elem_of_nil in Hi.
  - destruct vs as [|v vs]; [done|]. simpl in *.
    destruct (decide (i ∈ idxs)) as [Hin|Hnin].
    + destruct (IH vs) as [y ->]; [lia|done|]. by eexists.
    + apply elem_of_cons in Hi as [->|?]; [|done].
      destruct (last_write (zip idxs vs) j); [by eexists|].
      rewrite decide_True by done. by eexists.
Qed.

Lemma last_write_zip_elem_of idxs (vs : list F) i y :
  last_write (zip idxs vs) i = Some y → i ∈ idxs.
Proof.
  revert vs y. induction idxs as [|j idxs IH]; intros [|v vs] y E; simpl in *; try done.
  destruct (last_write (zip idxs vs) i) eqn:E'.
  - by eapply list_elem_of_further, IH.
  - case_decide; [subst; apply list_elem_of_here|done].
Qed.

Lemma last_write_zip_NoDup idxs (vs : list F) k i v :
  length vs = length idxs → NoDup idxs →
  idxs !! k = Some i → vs !! k = Some v →
  last_write (zip idxs vs) i = Some v.
Proof.
  intros Hlen Hnd. revert vs k Hlen.
  induction Hnd as [|j idxs Hj Hnd IH]; intros vs k Hlen Hi Hv; [done|].
  destruct vs as [|v' vs]; [done|]. simpl in *.
  destruct k as [|k]; simpl in *.
  - simplify_eq.
    destruct (last_write (zip idxs vs) i) as [y|] eqn:E.
    + exfalso. apply Hj. by eapply last_write_zip_elem_of.
    + by rewrite decide_True.
  - rewrite (IH vs k) by (done || lia). done.
Qed.

End Accessors.

(** ** Instantiating the classes *)

Section Constructors.
Context {F : Type} `{Arith F}.

Implicit Types (w : world (F:=F)) (l self : loc) (c : cls) (a args : list F).
Implicit Types (d : gmap string (attr (F:=F))).

Lemma Translation_new_spec args w :
  length args = 3 →
  Translation_new args w =
    (inr (length (heap w)),
     instantiated Translation (<["_array" := AArray (np_array args)]> ∅) w).
Proof.
  intros Hlen. unfold Translation_new, Translation__init__.
  destruct (decide (length args = 3)); [|done]. apply new_Coordinates.
Qed.

Lemma Scale_new_spec args w :
  length args = 3 →
  Scale_new args w =
    (inr (length (heap w)),
     instantiated Scale (<["_array" := AArray (np_array args)]> ∅) w).
Proof.
  intros Hlen. unfold Scale_new, Scale__init__.
  destruct (decide (length args = 1)); [lia|]. simpl.
  destruct (decide (length args = 3)); [|done]. apply new_Coordinates.
Qed.

Lemma RotationQuaternion_new_spec q0 q1 q2 q3 w :
  RotationQuaternion_new [q0; q1; q2; q3] w =
    (inr (length (heap w)),
     instantiated RotationQuaternion
       (<["_array" := AArray (np_array [q0; q1; q2; q3])]> ∅) w).
Proof. apply new_Coordinates. Qed.

Lemma new_RotationEuler c x y z axes w :
  new c (fun self => RotationEuler__init__ self [x; y; z] axes) w =
    (inr (length (heap w)),
     instantiated c
       (<["axes" := AStr axes]> (<["_array" := AArray (np_array [x; y; z])]> ∅)) w).
Proof.
  unfold new, RotationEuler__init__. erewrite bind_inr by reflexivity.
  erewrite bind_inr; cycle 1.
  { erewrite bind_inr by (apply Coordinates__init___spec; simpl; apply lookup_snoc_new).
    apply setattr_spec. simpl. rewrite insert_snoc_new. apply lookup_snoc_new. }
  simpl. unfold instantiated. by rewrite !insert_snoc_new.
Qed.

Lemma RotationEulerRadians_new_spec x y z axes w :
  RotationEulerRadians_new [x; y; z] axes w =
    (inr (length (heap w)),
     instantiated RotationEulerRadians
       (<["axes" := AStr axes]> (<["_array" := AArray (np_array [x; y; z])]> ∅)) w).
Proof. apply new_RotationEuler. Qed.

Lemma RotationEulerDegrees_new_spec x y z axes w :
  RotationEulerDegrees_new [x; y; z] axes w =
    (inr (length (heap w)),
     instantiated RotationEulerDegrees
       (<["axes" := AStr axes]> (<["_array" := AArray (np_array [x; y; z])]> ∅)) w).
Proof. apply new_RotationEuler. Qed.

Lemma instance_updated w l c d a' :
  heap w !! l = Some (Object c d) →
  installed (class_ns w) c →
  instance (updated l (Object c (<["_array" := AArray a']> d)) w) l c a'.
Proof.
  intros Hl Hns. exists (<["_array" := AArray a']> d). split_and!; [| |done].
  - simpl. apply list_lookup_insert_eq. by eapply lookup_lt_Some.
  - apply lookup_insert_eq.
Qed.

End Constructors.

(** ** Named accessors: reading, writing, notifying *)

Section AccessorClaims.
Context {F : Type} `{Arith F}.

Implicit Types (w : world (F:=F)) (l self : loc) (c : cls) (a : list F).
Implicit Types (P : list ascii) (idxs : list nat).

(** C5.  For every initialised instance of a class with an axis map of size
    [N] and every sequence [P] of 1 to [N] axis letters, repetitions allowed,
    the accessor named by [P] exists; reading it returns the components at the
    indices of [P] in the order of [P], as a single scalar when [P] has one
    letter and as a tuple otherwise.  After writing a sequence of as many
    values through it, reading it again returns, for every position, the last
    value written to the index of that position, converted to float32; when
    no letter is repeated this is the written sequence itself. *)
Theorem accessor_get_set w l c a P :
  instance w l c a →
  length a = length (coords c) →
  1 ≤ length P ≤ length (coords c) →
  Forall (.∈ dict_keys (coords c)) P →
  ∃ idxs xs,
    mapM (dict_get (coords c)) P = Some idxs ∧
    mapM (fun i => a !! i) idxs = Some xs ∧
    get l (string_of_list_ascii P) w = (inr (packed xs), w) ∧
    ∀ vs, length vs = length P →
      ∃ w' ys,
        set l (string_of_list_ascii P) (Sequence vs) w = (inr tt, w') ∧
        get l (string_of_list_ascii P) w' = (inr (packed ys), w') ∧
        Forall2 (fun i y => f32 <$> last_write (zip idxs vs) i = Some y) idxs ys ∧
        (NoDup P → ys = f32 <$> vs).
Proof.
  intros Hi Hlen HP Hall.
  assert (P ∈ accessor_args c) as Hacc by (by apply elem_of_accessor_args).
  destruct (gen_getter_setter_funs_Some c P Hall) as (idxs & Hm & _).
  pose proof (indices_in_range c P idxs Hm) as Hrange. rewrite <- Hlen in Hrange.
  destruct (lookups_is_Some a idxs Hrange) as [xs Hxs].
  exists idxs, xs. split_and!; [done|done| |].
  { rewrite (get_spec w l c a P Hi Hacc), (components_indices c a P idxs Hm). by rewrite Hxs. }
  intros vs Hvs.
  assert (length vs = length idxs) as Hvs' by (rewrite Hvs; by eapply length_mapM).
  destruct Hi as (d & Hl & Ha & Hns).
  set (a' := foldl (fun a' iv => <[iv.1 := f32 iv.2]> a') a (zip idxs vs)).
  assert (length a' = length a) as Hlen' by apply write_length.
  assert (Forall (fun i => i < length a') idxs) as Hrange' by (by rewrite Hlen').
  destruct (lookups_is_Some a' idxs Hrange') as [ys Hys].
  exists (updated l (Object c (<["_array" := AArray a']> d)) w), ys.
  assert (Forall2 (fun i y => f32 <$> last_write (zip idxs vs) i = Some y) idxs ys) as Hlast.
  { apply mapM_Some in Hys. apply Forall2_same_length_lookup. split; [by eapply Forall2_length|].
    intros k i y Hk Hy. eapply Forall2_lookup_lr in Hys; [|done..].
    unfold a' in Hys. rewrite write_lookup in Hys.
    - destruct (last_write_zip_is_Some idxs vs i Hvs') as [v Hv].
      + by eapply list_elem_of_lookup_2.
      + rewrite Hv in Hys |- *. done.
    - apply Forall_forall. intros [j v] Hjv%elem_of_zip_l.
      rewrite Forall_forall in Hrange. by apply Hrange. }
  split_and!; [| |done|].
  - unfold set.
    erewrite bind_inr by (eapply find_property_spec; [by exists d|done..]).
    erewrite setter_spec by done. simpl.
    by rewrite np_setitem_Sequence.
  - rewrite (get_spec _ l c a' P); [|by apply instance_updated|done].
    rewrite (components_indices c a' P idxs Hm). by rewrite Hys.
  - intros Hnd. pose proof (indices_NoDup c P idxs Hm Hnd) as Hnd'.
    apply list_eq_same_length with (length idxs).
    + by rewrite length_fmap.
    + symmetry. by eapply Forall2_length.
    + intros k y fv Hk Hy Hfv.
      destruct (lookup_lt_is_Some_2 idxs k Hk) as [i Hik].
      apply list_lookup_fmap_Some in Hfv as (v & -> & Hv).
      eapply Forall2_lookup_lr in Hlast; [|done..].
      rewrite (last_write_zip_NoDup idxs vs k i v) in Hlast by done.
      by injection Hlast.
Qed.

(** C9.  For every initialised instance and every generated accessor, one
    successful write (a scalar, or a sequence of as many values as the name
    has letters) makes exactly one call of the observer hook; the hook finds
    the object as it is after the write; apart from the component array of
    the receiver and that call, nothing changes. *)
Theorem setter_notifies_once w l c a P (value : pyvalue F) :
  instance w l c a →
  length a = length (coords c) →
  1 ≤ length P ≤ length (coords c) →
  Forall (.∈ dict_keys (coords c)) P →
  (∀ vs, value = Sequence vs → length vs = length P) →
  ∃ w' d a',
    set l (string_of_list_ascii P) value w = (inr tt, w') ∧
    heap w !! l = Some (Object c d) ∧
    heap w' = <[l := Object c (<["_array" := AArray a']> d)]> (heap w) ∧
    observed w' = observed w ++ [(l, Object c (<["_array" := AArray a']> d))] ∧
    class_ns w' = class_ns w.
Proof.
  intros (d & Hl & Ha & Hns) Hlen HP Hall Hval.
  assert (P ∈ accessor_args c) as Hacc by (by apply elem_of_accessor_args).
  destruct (gen_getter_setter_funs_Some c P Hall) as (idxs & Hm & _).
  pose proof (indices_in_range c P idxs Hm) as Hrange. rewrite <- Hlen in Hrange.
  assert (∃ a', np_setitem a idxs value = inr a') as [a' Hset].
  { destruct value as [x|vs].
    - eexists. by apply np_setitem_Scalar.
    - eexists. apply np_setitem_Sequence; [done|].
      rewrite (Hval vs eq_refl). by eapply length_mapM. }
  exists (updated l (Object c (<["_array" := AArray a']> d)) w), d, a'.
  split_and!; try done.
  unfold set.
  erewrite bind_inr by (eapply find_property_spec; [by exists d|done..]).
  erewrite setter_spec by done. simpl. by rewrite Hset.
Qed.

(** A write that fails leaves the world as it was: no component is changed
    and the observer is not called. *)
Lemma set_failure w l c a name (value : pyvalue F) e w' :
  instance w l c a →
  set l name value w = (inl e, w') → w' = w.
Proof.
  intros (d & Hl & Ha & Hns). unfold set, find_property at 1.
  unfold mbind, Py_bind. rewrite Hl. simpl.
  destruct (class_ns w !! (c, name)) as [p|]; [|by intros [= _ <-]].
  erewrite setter_spec by done.
  destruct (np_setitem a (p_indices p) value); by intros [= _ <-].
Qed.

End AccessorClaims.

Lemma instance_world_t123 :
  instance world_t123 0 Translation (np_array [1; 2; 3]%float).
Proof.
  unfold world_t123. rewrite Translation_new_spec by done. simpl.
  by apply (instance_instantiated_new Translation _ empty_world).
Qed.

Lemma accessor_get_set_witness :
  instance world_t123 0 Translation (np_array [1; 2; 3]%float) ∧
  (∃ xs, get 0 "zx" world_t123 = (inr (packed xs), world_t123)).
Proof.
  split; [apply instance_world_t123|].
  destruct (accessor_get_set world_t123 0 Translation (np_array [1; 2; 3]%float)
              ["z"; "x"]%char) as (idxs & xs & _ & _ & Hget & _).
  - apply instance_world_t123.
  - reflexivity.
  - simpl. lia.
  - repeat constructor.
  - by exists xs.
Defined.

Lemma setter_notifies_once_witness :
  instance world_t123 0 Translation (np_array [1; 2; 3]%float) ∧
  (∃ w', set 0 "zx" (Sequence [7; 8]%float) world_t123 = (inr tt, w') ∧
         length (observed w') = 1).
Proof.
  split; [apply instance_world_t123|].
  destruct (setter_notifies_once world_t123 0 Translation (np_array [1; 2; 3]%float)
              ["z"; "x"]%char (Sequence [7; 8]%float))
    as (w' & d & a' & Hset & _ & _ & Hobs & _).
  - apply instance_world_t123.
  - reflexivity.
  - simpl. lia.
  - repeat constructor.
  - by intros vs [= <-].
  - exists w'. split; [done|]. by rewrite Hobs.
Defined.

(** ** Translation: addition and subtraction *)

Section TranslationClaims.
Context {F : Type} `{Arith F}.

Implicit Types (w : world (F:=F)) (l t : loc) (c : cls) (a xs : list F).

Lemma get_xyz w l c a :
  instance w l c a → c ≠ RotationQuaternion → length a = 3 →
  get l "xyz" w = (inr (Sequence a), w).
Proof.
  intros Hi Hc Hlen.
  change "xyz" with (string_of_list_ascii ["x"; "y"; "z"]%char).
  rewrite (get_spec w l c a ["x"; "y"; "z"]%char Hi).
  - destruct a as [|a0 [|a1 [|a2 [|]]]]; try done. by destruct c.
  - apply elem_of_accessor_args. destruct c; try done; split; simpl;
      try lia; repeat constructor.
Qed.

Lemma operand_oth_Ref w l a :
  instance w l Translation a → length a = 3 →
  operand_oth (Ref l) w = (inr a, w).
Proof.
  intros Hi Hlen. pose proof Hi as (d & Hl & _). unfold operand_oth.
  erewrite bind_inr by (unfold deref; by rewrite Hl). simpl.
  by erewrite bind_inr by (by eapply get_xyz).
Qed.

(** C3.  The code evaluated where the claim fails: for an initialised
    Translation [t] and a bare sequence of three numbers, [t - o] raises
    [AttributeError] (the operand has no attribute [xyz]) and leaves the world
    as it was; no Translation is returned. *)
Theorem Translation_sub_sequence_raises w t a xs :
  instance w t Translation a → length a = 3 → length xs = 3 →
  Translation__sub__ t (Seq xs) w = (inl AttributeError, w).
Proof.
  intros Hi Hlen Hxs. unfold Translation__sub__.
  erewrite bind_inr by reflexivity.
  rewrite decide_False by (intros ?; done).
  erewrite bind_inr by (by erewrite bind_inr by (by eapply get_xyz)).
  by erewrite bind_inl by reflexivity.
Qed.

(** The sibling [__add__] iterates over [oth] and accepts the same operand. *)
Lemma Translation_add_sequence w t a xs :
  instance w t Translation a → length a = 3 → length xs = 3 →
  Translation__add__ t (Seq xs) w =
    (inr (length (heap w)),
     instantiated Translation
       (<["_array" := AArray (np_array (zip_with (fun x y => fadd x (f32 y)) a xs))]> ∅) w).
Proof.
  intros Hi Hlen Hxs. unfold Translation__add__.
  erewrite bind_inr by reflexivity.
  rewrite decide_False by (intros ?; done).
  erewrite bind_inr by (by erewrite bind_inr by (by eapply get_xyz)).
  apply Translation_new_spec. rewrite length_zip_with. lia.
Qed.

(** With another Translation as operand, [t - o] is a new Translation that
    holds the elementwise differences; the objects that existed before are
    unchanged. *)
Lemma Translation_sub_translation w t a o b :
  instance w t Translation a → length a = 3 →
  instance w o Translation b → length b = 3 →
  ∃ w',
    Translation__sub__ t (Ref o) w = (inr (length (heap w)), w') ∧
    instance w' (length (heap w)) Translation (np_array (zip_with fsub a b)) ∧
    (∀ l ob, heap w !! l = Some ob → heap w' !! l = Some ob) ∧
    observed w' = observed w.
Proof.
  intros Hi Hlen Ho Hb. eexists. split_and!.
  - unfold Translation__sub__.
    erewrite bind_inr by (by eapply operand_oth_Ref).
    rewrite decide_False by (intros ?; done).
    erewrite bind_inr by (by erewrite bind_inr by (by eapply get_xyz)).
    erewrite bind_inr
      by (unfold operand_xyz; by erewrite bind_inr by (by eapply get_xyz)).
    apply Translation_new_spec. rewrite length_zip_with. lia.
  - apply instance_instantiated_new. apply lookup_insert_eq.
  - intros l ob. apply heap_instantiated_old.
  - done.
Qed.

(** An operand of another length is refused. *)
Lemma Translation_sub_wrong_length w t xs :
  length xs ≠ 3 →
  Translation__sub__ t (Seq xs) w =
    (inl (ValueError "Other must have length of 3"), w).
Proof.
  intros Hxs. unfold Translation__sub__.
  erewrite bind_inr by reflexivity. by rewrite decide_True.
Qed.

End TranslationClaims.

Lemma Translation_sub_sequence_raises_witness :
  instance world_t123 0 Translation (np_array [1; 2; 3]%float) ∧
  Translation__sub__ 0 (Seq [4; 5; 6]%float) world_t123 = (inl AttributeError, world_t123).
Proof.
  split; [apply instance_world_t123|].
  by apply (Translation_sub_sequence_raises world_t123 0 (np_array [1; 2; 3]%float));
    [apply instance_world_t123|..].
Defined.

(** ** Rotation variants *)

Section RotationFacts.
Context {F : Type} `{Arith F} `{Backend F}.

Implicit Types (w : world (F:=F)) (l self : loc) (c : cls) (a : list F).
Implicit Types (d : gmap string (attr (F:=F))) (axes units : string).

Lemma lower_ascii_idemp (x : ascii) : lower_ascii (lower_ascii x) = lower_ascii x.
Proof. by destruct x as [[] [] [] [] [] [] [] []]. Qed.

Lemma lower_idemp (s : string) : lower (lower s) = lower s.
Proof. induction s as [|x s IH]; simpl; [done|]. by rewrite lower_ascii_idemp, IH. Qed.

Lemma euler_instance_instance w l c a axes :
  euler_instance w l c a axes → instance w l c a.
Proof. intros (_ & _ & d & Hl & Ha & _ & _ & Hns). by exists d. Qed.

Lemma getattr_str_spec w l c a axes :
  euler_instance w l c a axes → getattr_str l "axes" w = (inr axes, w).
Proof.
  intros (_ & _ & d & Hl & _ & Hax & _). unfold getattr_str, getattr.
  erewrite bind_inr; [|erewrite bind_inr by (unfold deref; by rewrite Hl); simpl; by rewrite Hax].
  done.
Qed.

Lemma getattr__axes_raises w l c a axes :
  euler_instance w l c a axes → getattr_str l "_axes" w = (inl AttributeError, w).
Proof.
  intros (_ & _ & d & Hl & _ & _ & Hax & _). unfold getattr_str, getattr.
  erewrite bind_inl; [done|].
  erewrite bind_inr by (unfold deref; by rewrite Hl). simpl. by rewrite Hax.
Qed.

(** What the constructors of the Euler classes establish. *)
Lemma euler_instance_new c x y z axes w :
  c = RotationEulerRadians ∨ c = RotationEulerDegrees →
  euler_instance
    (instantiated c (<["axes" := AStr axes]> (<["_array" := AArray (np_array [x; y; z])]> ∅)) w)
    (length (heap w)) c (np_array [x; y; z]) axes.
Proof.
  intros Hc. split_and!; [done|done|]. eexists. split_and!.
  - apply heap_instantiated_new.
  - done.
  - done.
  - done.
  - apply installed_install.
Qed.

Lemma euler_instance_instantiated_old c' d' w l c a axes :
  euler_instance w l c a axes → euler_instance (instantiated c' d' w) l c a axes.
Proof.
  intros (Hc & Hlen & d & Hl & Ha & Hax & Hnax & Hns). split_and!; [done..|].
  exists d. split_and!; try done.
  - by apply heap_instantiated_old.
  - by apply installed_install_other.
Qed.

(** A write through an accessor keeps an Euler instance an Euler instance. *)
Lemma euler_instance_updated w l c a axes d a' :
  euler_instance w l c a axes →
  heap w !! l = Some (Object c d) → length a' = 3 →
  euler_instance (updated l (Object c (<["_array" := AArray a']> d)) w) l c a' axes.
Proof.
  intros (Hc & Hlen & d0 & Hl & Ha & Hax & Hnax & Hns) Hl' Hlen'.
  assert (d0 = d) as -> by congruence.
  split_and!; [done..|]. exists (<["_array" := AArray a']> d). split_and!; try done.
  - simpl. apply list_lookup_insert_eq. by eapply lookup_lt_Some.
  - apply lookup_insert_eq.
  - by rewrite lookup_insert_ne.
  - by rewrite lookup_insert_ne.
Qed.

Lemma length3 a : length a = 3 → ∃ x y z, a = [x; y; z].
Proof. destruct a as [|x [|y [|z [|]]]]; try done. by exists x, y, z. Qed.

(** *** The conversions, one by one *)

Lemma RotationEulerRadians_to_degrees_spec w l a axes :
  euler_instance w l RotationEulerRadians a axes →
  RotationEulerRadians_to_degrees l w =
    (inr (length (heap w)),
     instantiated RotationEulerDegrees
       (<["axes" := AStr axes]> (<["_array" := AArray (np_array (np_degrees <$> a))]> ∅)) w).
Proof.
  intros Hi. pose proof Hi as (_ & (x & y & z & ->)%length3 & _).
  unfold RotationEulerRadians_to_degrees.
  erewrite bind_inr by (by eapply get_array_spec, euler_instance_instance).
  erewrite bind_inr by (by eapply getattr_str_spec).
  apply RotationEulerDegrees_new_spec.
Qed.

Lemma RotationEulerDegrees_to_radians_spec w l a axes :
  euler_instance w l RotationEulerDegrees a axes →
  RotationEulerDegrees_to_radians l w =
    (inr (length (heap w)),
     instantiated RotationEulerRadians
       (<["axes" := AStr axes]> (<["_array" := AArray (np_array (np_radians <$> a))]> ∅)) w).
Proof.
  intros Hi. pose proof Hi as (_ & (x & y & z & ->)%length3 & _).
  unfold RotationEulerDegrees_to_radians.
  erewrite bind_inr by (by eapply get_array_spec, euler_instance_instance).
  erewrite bind_inr by (by eapply getattr_str_spec).
  apply RotationEulerRadians_new_spec.
Qed.

Lemma assert_units_ok units w :
  lower units ∈ ["rad"; "deg"] → assert_units units w = (inr tt, w).
Proof. intros Hu. unfold assert_units. by rewrite bool_decide_eq_true_2. Qed.

Lemma assert_units_fail units w :
  lower units ∉ ["rad"; "deg"] → assert_units units w = (inl (AssertionError EmptyString), w).
Proof. intros Hu. unfold assert_units. by rewrite bool_decide_eq_false_2. Qed.

Lemma RotationEulerRadians_to_euler_spec w l a axes units :
  euler_instance w l RotationEulerRadians a axes →
  lower units ∈ ["rad"; "deg"] →
  RotationEulerRadians_to_euler l units w =
    if bool_decide (lower units = "rad") then
      (inr (length (heap w)),
       instantiated RotationEulerRadians
         (<["axes" := AStr axes]> (<["_array" := AArray (np_array a)]> ∅)) w)
    else
      (inr (length (heap w)),
       instantiated RotationEulerDegrees
         (<["axes" := AStr axes]> (<["_array" := AArray (np_array (np_degrees <$> a))]> ∅)) w).
Proof.
  intros Hi Hu. pose proof Hi as (_ & (x & y & z & ->)%length3 & _).
  unfold RotationEulerRadians_to_euler.
  erewrite bind_inr by (by apply assert_units_ok).
  case_bool_decide.
  - erewrite bind_inr by (by eapply get_array_spec, euler_instance_instance).
    erewrite bind_inr by (by eapply getattr_str_spec).
    apply RotationEulerRadians_new_spec.
  - erewrite bind_inr by (by eapply get_array_spec, euler_instance_instance).
    erewrite bind_inr by (by eapply getattr_str_spec).
    apply RotationEulerDegrees_new_spec.
Qed.

Lemma RotationEulerRadians_to_euler_fail w l units :
  lower units ∉ ["rad"; "deg"] →
  RotationEulerRadians_to_euler l units w = (inl (AssertionError EmptyString), w).
Proof.
  intros Hu. unfold RotationEulerRadians_to_euler.
  by erewrite bind_inl by (by apply assert_units_fail).
Qed.

Lemma RotationEulerDegrees_to_euler_spec w l a axes units :
  euler_instance w l RotationEulerDegrees a axes →
  lower units ∈ ["rad"; "deg"] →
  ∃ d1 c2 d2,
    RotationEulerDegrees_to_euler l units w =
      (inr (S (length (heap w))),
       instantiated c2 d2 (instantiated RotationEulerRadians d1 w)) ∧
    d2 !! "axes" = Some (AStr axes).
Proof.
  intros Hi Hu. unfold RotationEulerDegrees_to_euler.
  erewrite bind_inr by (by eapply RotationEulerDegrees_to_radians_spec).
  pose proof Hi as (_ & (x & y & z & ->)%length3 & _).
  erewrite RotationEulerRadians_to_euler_spec;
    [|by apply euler_instance_new; left|done].
  simpl. rewrite length_app, Nat.add_1_r.
  case_bool_decide; by repeat eexists.
Qed.

Lemma RotationEulerDegrees_to_euler_fail w l a axes units :
  euler_instance w l RotationEulerDegrees a axes →
  lower units ∉ ["rad"; "deg"] →
  ∃ w', RotationEulerDegrees_to_euler l units w = (inl (AssertionError EmptyString), w').
Proof.
  intros Hi Hu. unfold RotationEulerDegrees_to_euler.
  erewrite bind_inr by (by eapply RotationEulerDegrees_to_radians_spec).
  rewrite RotationEulerRadians_to_euler_fail by done. by eexists.
Qed.

(** The quaternion variant hands itself to scipy and gets no rotation
    back: [to_euler] and [to_matrix] raise before anything else happens, for
    every [units], valid or not. *)
Lemma R_from_quat_instance_raises w l a :
  instance w l RotationQuaternion a →
  R_from_quat_instance l w = (inl IndexError, w).
Proof.
  intros (d & Hl & _). unfold R_from_quat_instance.
  by erewrite bind_inr by (unfold deref; by rewrite Hl).
Qed.

Lemma RotationQuaternion_to_euler_raises w l a units :
  instance w l RotationQuaternion a →
  RotationQuaternion_to_euler l units w = (inl IndexError, w).
Proof.
  intros Hi. unfold RotationQuaternion_to_euler.
  by erewrite bind_inl by (by eapply R_from_quat_instance_raises).
Qed.

Lemma RotationQuaternion_to_matrix_raises w l a :
  instance w l RotationQuaternion a →
  RotationQuaternion_to_matrix l w = (inl IndexError, w).
Proof.
  intros Hi. unfold RotationQuaternion_to_matrix.
  by erewrite bind_inl by (by eapply R_from_quat_instance_raises).
Qed.

(** *** Frame of a write *)

Lemma set_frame w l name (v : pyvalue F) w' k :
  set l name v w = (inr tt, w') → k ≠ l → heap w' !! k = heap w !! k.
Proof.
  unfold set, find_property, setter, get_array, getattr, deref, lift, setattr,
    notify_observers, raise, mbind, Py_bind, mret, Py_ret.
  intros Hset Hk.
  repeat (case_match; simplify_eq/=); by rewrite list_lookup_insert_ne.
Qed.

Lemma fresh_result_intro (m : Py (F:=F) loc) w l' w' :
  m w = (inr l', w') →
  length (heap w) ≤ l' < length (heap w') →
  (∀ k o, heap w !! k = Some o → heap w' !! k = Some o) →
  fresh_result m w.
Proof.
  intros Hm [Hge Hlt] Hold. exists l', w'. split_and!; [done| | |done| |].
  - by apply lookup_ge_None.
  - by apply lookup_lt_is_Some.
  - intros k name v w'' Hk Hset. by eapply set_frame.
  - intros k name v w'' Hk Hset. eapply set_frame; [done|]. by intros ->.
Qed.

Lemma fresh_result_instantiated (m : Py (F:=F) loc) w c d :
  m w = (inr (length (heap w)), instantiated c d w) → fresh_result m w.
Proof.
  intros Hm. eapply fresh_result_intro; [done| |].
  - simpl. rewrite length_app. simpl. lia.
  - intros k o. apply heap_instantiated_old.
Qed.

Lemma fresh_result_instantiated2 (m : Py (F:=F) loc) w c1 d1 c2 d2 :
  m w = (inr (S (length (heap w))), instantiated c2 d2 (instantiated c1 d1 w)) →
  fresh_result m w.
Proof.
  intros Hm. eapply fresh_result_intro; [done| |].
  - simpl. rewrite !length_app. simpl. lia.
  - intros k o Hk. by do 2 apply heap_instantiated_old.
Qed.

End RotationFacts.

(** ** Rotation variants: the claims *)

Section RotationClaims.
Context {F : Type} `{Arith F} `{Backend F}.

Implicit Types (w : world (F:=F)) (l self : loc) (c : cls) (a : list F).
Implicit Types (axes units : string) (matrix : list (list F)).

(** On any Euler instance [to_quaternion] fails: the method reads the
    attribute [_axes], which no statement of the module ever sets. *)
Lemma to_quaternion_euler_instance w l c a axes :
  euler_instance w l c a axes →
  ∃ w', to_quaternion l w = (inl AttributeError, w').
Proof.
  intros Hi. pose proof Hi as ([-> | ->] & _ & d & Hl & _).
  - exists w. unfold to_quaternion.
    erewrite bind_inr by (unfold deref; by rewrite Hl). simpl.
    unfold RotationEulerRadians_to_quaternion.
    by erewrite bind_inl by (by eapply getattr__axes_raises).
  - eexists. unfold to_quaternion.
    erewrite bind_inr by (unfold deref; by rewrite Hl). simpl.
    unfold RotationEulerDegrees_to_quaternion.
    erewrite bind_inr by (by eapply RotationEulerDegrees_to_radians_spec).
    pose proof Hi as (_ & (x & y & z & ->)%length3 & _).
    unfold RotationEulerRadians_to_quaternion.
    erewrite bind_inl; [done|]. eapply getattr__axes_raises.
    apply euler_instance_new. by left.
Qed.

(** C1.  The code evaluated where the claim fails: for every Euler rotation,
    in radians or in degrees, whatever its angles and axes spec,
    [to_quaternion()] raises [AttributeError]; no quaternion is returned, so
    there is no matrix to compare with [to_matrix()]. *)
Theorem to_quaternion_euler_raises w x y z axes :
  (∃ w', (l ← RotationEulerRadians_new [x; y; z] axes; to_quaternion l) w
         = (inl AttributeError, w')) ∧
  (∃ w', (l ← RotationEulerDegrees_new [x; y; z] axes; to_quaternion l) w
         = (inl AttributeError, w')).
Proof.
  split.
  - erewrite bind_inr by apply RotationEulerRadians_new_spec.
    eapply to_quaternion_euler_instance. apply euler_instance_new. by left.
  - erewrite bind_inr by apply RotationEulerDegrees_new_spec.
    eapply to_quaternion_euler_instance. apply euler_instance_new. by right.
Qed.

(** The sibling [to_matrix] reads [axes] and succeeds on the same
    instances. *)
Lemma RotationEulerRadians_to_matrix_spec w l a axes :
  euler_instance w l RotationEulerRadians a axes →
  RotationEulerRadians_to_matrix l w =
    (inr (set_block33 (np_eye 4) (R_as_matrix (R_from_euler (str_tail axes) a false))), w).
Proof.
  intros Hi. unfold RotationEulerRadians_to_matrix.
  erewrite bind_inr by (by eapply getattr_str_spec).
  by erewrite bind_inr by (by eapply get_array_spec, euler_instance_instance).
Qed.

(** For a quaternion [to_quaternion()] is the receiver, so both sides of
    C1 are one and the same computation. *)
Lemma RotationQuaternion_to_quaternion_to_matrix w l :
  (q ← RotationQuaternion_to_quaternion l; RotationQuaternion_to_matrix q) w =
  RotationQuaternion_to_matrix l w.
Proof. done. Qed.

(** C2.  The code evaluated where the claim fails: whatever axes string the
    caller passes, [from_matrix] of both Euler classes returns a new instance
    whose axes spec is the default ["rxyz"]. *)
Theorem from_matrix_axes_default w matrix axes :
  (∃ w', RotationEulerRadians_from_matrix matrix axes w = (inr (length (heap w)), w') ∧
         getattr_str (length (heap w)) "axes" w' = (inr "rxyz", w')) ∧
  (∃ w', RotationEulerDegrees_from_matrix matrix axes w = (inr (length (heap w)), w') ∧
         getattr_str (length (heap w)) "axes" w' = (inr "rxyz", w')).
Proof.
  split.
  - unfold RotationEulerRadians_from_matrix.
    destruct (R_as_euler _ _ _) as [[x y] z].
    eexists. split; [apply RotationEulerRadians_new_spec|].
    eapply getattr_str_spec. apply euler_instance_new. by left.
  - unfold RotationEulerDegrees_from_matrix.
    destruct (R_as_euler _ _ _) as [[x y] z].
    eexists. split; [apply RotationEulerDegrees_new_spec|].
    eapply getattr_str_spec. apply euler_instance_new. by right.
Qed.

(** The conversions between the Euler variants hand the axes spec on. *)
Lemma euler_conversions_keep_axes w l a axes :
  (euler_instance w l RotationEulerRadians a axes →
   ∃ l' w' a', RotationEulerRadians_to_degrees l w = (inr l', w') ∧
               euler_instance w' l' RotationEulerDegrees a' axes) ∧
  (euler_instance w l RotationEulerDegrees a axes →
   ∃ l' w' a', RotationEulerDegrees_to_radians l w = (inr l', w') ∧
               euler_instance w' l' RotationEulerRadians a' axes).
Proof.
  split; intros Hi; pose proof Hi as (_ & (x & y & z & ->)%length3 & _).
  - do 3 eexists. split; [by eapply RotationEulerRadians_to_degrees_spec|].
    apply euler_instance_new. by right.
  - do 3 eexists. split; [by eapply RotationEulerDegrees_to_radians_spec|].
    apply euler_instance_new. by left.
Qed.

(** C8.  The code evaluated where the claim holds and where it fails.  For
    an Euler rotation, in radians or in degrees, [to_euler(units)] looks only
    at the lower-case form of [units]: it raises [AssertionError] when that
    form is neither ["rad"] nor ["deg"], returns an instance when it is one
    of them, and gives for [units] the result it gives for its lower-case
    form; so ["RAD"] behaves as ["rad"] and ["DEG"] as ["deg"].  For a
    quaternion the call raises [IndexError] for every [units]: the instance
    is handed to scipy before the units are looked at, so valid units give
    no result and invalid units do not give the error of the units check. *)
Theorem to_euler_units w l :
  (∀ c a axes, euler_instance w l c a axes →
     (∀ units, lower units ∉ ["rad"; "deg"] →
        ∃ w', to_euler l units w = (inl (AssertionError EmptyString), w')) ∧
     (∀ units, lower units ∈ ["rad"; "deg"] →
        ∃ l' w', to_euler l units w = (inr l', w')) ∧
     (∀ units, to_euler l units w = to_euler l (lower units) w) ∧
     to_euler l "RAD" w = to_euler l "rad" w ∧
     to_euler l "DEG" w = to_euler l "deg" w) ∧
  (∀ a, instance w l RotationQuaternion a →
     ∀ units, to_euler l units w = (inl IndexError, w)).
Proof.
  assert (∀ units, to_euler l units w = to_euler l (lower units) w) as Hlower.
  { intros units.
    unfold to_euler, RotationEulerRadians_to_euler, RotationEulerDegrees_to_euler,
      RotationQuaternion_to_euler, RotationEulerRadians_to_euler, assert_units.
    by rewrite !lower_idemp. }
  split.
  - intros c a axes Hi.
    split_and!; [| |done|apply (Hlower "RAD")|apply (Hlower "DEG")].
    + intros units Hu.
      pose proof Hi as ([-> | ->] & _ & d & Hl & _); unfold to_euler;
        erewrite bind_inr by (unfold deref; by rewrite Hl); simpl.
      * exists w. by apply RotationEulerRadians_to_euler_fail.
      * by eapply RotationEulerDegrees_to_euler_fail.
    + intros units Hu.
      pose proof Hi as ([-> | ->] & _ & d & Hl & _); unfold to_euler;
        erewrite bind_inr by (unfold deref; by rewrite Hl); simpl.
      * erewrite RotationEulerRadians_to_euler_spec by done.
        case_bool_decide; by do 2 eexists.
      * destruct (RotationEulerDegrees_to_euler_spec w l a axes units Hi Hu)
          as (d1 & c2 & d2 & -> & _). by do 2 eexists.
  - intros a Hi units. pose proof Hi as (d & Hl & _). unfold to_euler.
    erewrite bind_inr by (unfold deref; by rewrite Hl). simpl.
    by eapply RotationQuaternion_to_euler_raises.
Qed.

(** C4, as amended.  The three identity conversions return the receiver
    itself and change nothing.  The conversions of an Euler rotation to
    another representation ([to_degrees] of the radians variant, [to_radians]
    of the degrees variant, [to_euler] of both with valid units) return a new
    instance: it did not exist before, every existing object is as it was,
    and later writes to the new instance and to any other object, the
    receiver included, do not affect each other. *)
Theorem conversions_identity_or_fresh w l :
  RotationEulerRadians_to_radians l w = (inr l, w) ∧
  RotationEulerDegrees_to_degrees l w = (inr l, w) ∧
  RotationQuaternion_to_quaternion l w = (inr l, w) ∧
  (∀ a axes, euler_instance w l RotationEulerRadians a axes →
     fresh_result (RotationEulerRadians_to_degrees l) w ∧
     ∀ units, lower units ∈ ["rad"; "deg"] →
       fresh_result (RotationEulerRadians_to_euler l units) w) ∧
  (∀ a axes, euler_instance w l RotationEulerDegrees a axes →
     fresh_result (RotationEulerDegrees_to_radians l) w ∧
     ∀ units, lower units ∈ ["rad"; "deg"] →
       fresh_result (RotationEulerDegrees_to_euler l units) w).
Proof.
  split_and!; [done..| |].
  - intros a axes Hi. split.
    + eapply fresh_result_instantiated. by eapply RotationEulerRadians_to_degrees_spec.
    + intros units Hu.
      pose proof (RotationEulerRadians_to_euler_spec w l a axes units Hi Hu) as Hspec.
      case_bool_decide; by eapply fresh_result_instantiated.
  - intros a axes Hi. split.
    + eapply fresh_result_instantiated. by eapply RotationEulerDegrees_to_radians_spec.
    + intros units Hu.
      destruct (RotationEulerDegrees_to_euler_spec w l a axes units Hi Hu)
        as (d1 & c2 & d2 & Hspec & _).
      by eapply fresh_result_instantiated2.
Qed.

(** A computation that returns an existing reference does not return a new
    instance. *)
Lemma receiver_not_fresh w l :
  is_Some (heap w !! l) → ¬ fresh_result (mret l) w.
Proof.
  intros [o Hl] (l' & w' & Hconv & Hnone & _).
  unfold mret, Py_ret in Hconv. injection Hconv as <- <-. congruence.
Qed.

End RotationClaims.

Lemma euler_instance_world_r123 :
  euler_instance world_r123 0 RotationEulerRadians (np_array [1; 2; 3]%float) "rxyz".
Proof.
  unfold world_r123. rewrite RotationEulerRadians_new_spec.
  apply (euler_instance_new RotationEulerRadians _ _ _ "rxyz" empty_world). by left.
Qed.

Lemma instance_world_q1000 :
  instance world_q1000 0 RotationQuaternion (np_array [1; 0; 0; 0]%float).
Proof.
  unfold world_q1000. rewrite RotationQuaternion_new_spec.
  by apply (instance_instantiated_new RotationQuaternion _ empty_world).
Qed.

Lemma to_euler_units_witness :
  euler_instance world_r123 0 RotationEulerRadians (np_array [1; 2; 3]%float) "rxyz" ∧
  to_euler 0 "RAD" world_r123 = to_euler 0 "rad" world_r123 ∧
  instance world_q1000 0 RotationQuaternion (np_array [1; 0; 0; 0]%float) ∧
  to_euler 0 "rad" world_q1000 = (inl IndexError, world_q1000).
Proof.
  split; [apply euler_instance_world_r123|]. split.
  - destruct (to_euler_units world_r123 0) as [Heuler _].
    by destruct (Heuler _ _ _ euler_instance_world_r123) as (_ & _ & _ & HRAD & _).
  - split; [apply instance_world_q1000|].
    destruct (to_euler_units world_q1000 0) as [_ Hquat].
    exact (Hquat _ instance_world_q1000 "rad").
Defined.

Lemma conversions_identity_or_fresh_witness :
  euler_instance world_r123 0 RotationEulerRadians (np_array [1; 2; 3]%float) "rxyz" ∧
  fresh_result (RotationEulerRadians_to_degrees 0) world_r123.
Proof.
  split; [apply euler_instance_world_r123|].
  destruct (conversions_identity_or_fresh world_r123 0) as (_ & _ & _ & Hrad & _).
  by destruct (Hrad _ _ euler_instance_world_r123) as [Hdeg _].
Defined.

(** C4 as stated fails: [to_radians()] of a radians rotation is not a new
    instance.  In the world that holds [RotationEulerRadians(1, 2, 3)] at
    reference [0] the call returns reference [0]; writing [x = 9] through the
    result is then read back through the receiver, whose [x] was [1]. *)
Lemma to_radians_returns_receiver :
  ¬ fresh_result (RotationEulerRadians_to_radians 0) world_r123 ∧
  (RotationEulerRadians_to_radians 0 world_r123).1 = inr 0 ∧
  (get 0 "x" world_r123).1 = inr (Scalar 1%float) ∧
  ((r ← RotationEulerRadians_to_radians 0;
    _ ← set r "x" (Scalar 9%float);
    get 0 "x") world_r123).1 = inr (Scalar 9%float).
Proof.
  split_and!; [|by vm_compute..].
  apply receiver_not_fresh.
  destruct euler_instance_world_r123 as (_ & _ & d & Hl & _). by eexists.
Qed.

(** ** Vector utilities *)

Section VectorFacts.
Context {F : Type} `{Arith F}.

(** The only error of [rotation_matrix_between_vectors] is the one raised
    by its test [cos == -1.], and it returns a matrix in every other case. *)
Lemma rotation_matrix_between_vectors_cases (from_vec to_vec : F * F * F) :
  let a := normalize from_vec in
  let b := normalize to_vec in
  let v_cpm := cross_product_matrix (np_cross a b) in
  rotation_matrix_between_vectors from_vec to_vec =
    if feqb (np_dot a b) (fneg f1) then
      inl (ValueError "Orientation in complete opposite direction")
    else
      inr (mat_add (mat_add np_identity3 v_cpm)
                   (mat_scale (mat_dot v_cpm v_cpm) (fadd (fdiv f1 f1) (np_dot a b)))).
Proof. done. Qed.

End VectorFacts.

(** *** Over the real numbers *)

(** Equality of tuples, component by component. *)
Ltac tuple_eq :=
  repeat match goal with
         | |- (_, _) = (_, _) => apply pair_equal_spec; split
         end.

Lemma sum_squares_pos (x y z : R) :
  (x, y, z) ≠ (0, 0, 0)%R → (0 < x * x + y * y + z * z)%R.
Proof.
  intros Hne.
  destruct (Req_dec_T x 0) as [->|Hx]; [|nra].
  destruct (Req_dec_T y 0) as [->|Hy]; [|nra].
  destruct (Req_dec_T z 0) as [->|Hz]; [|nra]. done.
Qed.

(** A vector that is not zero is normalised to a unit vector. *)
Lemma normalize_unit (v : R * R * R) :
  v ≠ (0, 0, 0)%R → np_dot (normalize v) (normalize v) = 1%R.
Proof.
  destruct v as [[x y] z]. intros Hne.
  pose proof (sum_squares_pos x y z Hne) as Hpos.
  unfold normalize, np_linalg_norm, vec_div, np_dot. simpl.
  set (n := sqrt (x * x + y * y + z * z)).
  assert (n * n = x * x + y * y + z * z)%R as Hn by (apply sqrt_sqrt; lra).
  assert (0 < n)%R as Hn0 by (by apply sqrt_lt_R0).
  replace (x / n * (x / n) + y / n * (y / n) + z / n * (z / n))%R
    with ((x * x + y * y + z * z) / (n * n))%R by (field; lra).
  rewrite Hn. field. lra.
Qed.

(** Scaling a vector by a positive factor does not change its normalised
    form. *)
Lemma normalize_scale (k x y z : R) :
  (0 < k)%R → (x, y, z) ≠ (0, 0, 0)%R →
  normalize (k * x, k * y, k * z)%R = normalize (x, y, z).
Proof.
  intros Hk Hne. pose proof (sum_squares_pos x y z Hne) as Hpos.
  unfold normalize, np_linalg_norm, vec_div, np_dot. simpl.
  replace (k * x * (k * x) + k * y * (k * y) + k * z * (k * z))%R
    with ((k * k) * (x * x + y * y + z * z))%R by ring.
  rewrite sqrt_mult by nra. rewrite sqrt_square by lra.
  set (n := sqrt (x * x + y * y + z * z)).
  assert (0 < n)%R as Hn0 by (by apply sqrt_lt_R0).
  f_equal; [f_equal|]; field; lra.
Qed.

(** On real vectors the helpers of the model are the operations of the
    specification. *)
Lemma normalize_unit_vector (x : R * R * R) : normalize x = unit_vector x.
Proof. by destruct x as [[x0 x1] x2]. Qed.

Lemma np_dot_dot_product (a b : R * R * R) : np_dot a b = dot_product a b.
Proof. by destruct a as [[a0 a1] a2], b as [[b0 b1] b2]. Qed.

Lemma np_cross_cross_product (a b : R * R * R) : np_cross a b = cross_product a b.
Proof. by destruct a as [[a0 a1] a2], b as [[b0 b1] b2]. Qed.

(** Two unit vectors have dot product [-1] exactly when one is the negative
    of the other, and never a smaller one. *)
Lemma unit_dot_opposite (a0 a1 a2 b0 b1 b2 : R) :
  (a0 * a0 + a1 * a1 + a2 * a2 = 1)%R →
  (b0 * b0 + b1 * b1 + b2 * b2 = 1)%R →
  (-1 <= a0 * b0 + a1 * b1 + a2 * b2)%R ∧
  ((a0 * b0 + a1 * b1 + a2 * b2 = -1)%R ↔ (b0 = - a0 ∧ b1 = - a1 ∧ b2 = - a2)%R).
Proof.
  intros Ha Hb.
  pose proof (Rle_0_sqr (a0 + b0)) as H0. pose proof (Rle_0_sqr (a1 + b1)) as H1.
  pose proof (Rle_0_sqr (a2 + b2)) as H2. unfold Rsqr in *.
  split; [nra|]. split.
  - intros Hdot.
    assert ((a0 + b0) * (a0 + b0) + (a1 + b1) * (a1 + b1) + (a2 + b2) * (a2 + b2) = 0)%R
      as Hsum by nra.
    assert ((a0 + b0) * (a0 + b0) = 0 ∧ (a1 + b1) * (a1 + b1) = 0 ∧
            (a2 + b2) * (a2 + b2) = 0)%R as (E0 & E1 & E2) by (split_and!; nra).
    apply Rmult_integral in E0, E1, E2. split_and!; lra.
  - intros (-> & -> & ->). nra.
Qed.

(** The normalised inputs have dot product [-1] exactly when the inputs
    point in opposite directions. *)
Lemma unit_dot_opposite_inputs (from_vec to_vec : R * R * R) :
  from_vec ≠ (0, 0, 0)%R → to_vec ≠ (0, 0, 0)%R →
  dot_product (unit_vector from_vec) (unit_vector to_vec) = (-1)%R ↔
  opposite from_vec to_vec.
Proof.
  intros Hfrom Hto.
  pose proof (normalize_unit from_vec Hfrom) as Ha.
  pose proof (normalize_unit to_vec Hto) as Hb.
  rewrite normalize_unit_vector, np_dot_dot_product in Ha, Hb.
  destruct from_vec as [[x0 x1] x2], to_vec as [[y0 y1] y2].
  pose proof (sum_squares_pos x0 x1 x2 Hfrom) as Hx.
  pose proof (sum_squares_pos y0 y1 y2 Hto) as Hy.
  unfold unit_vector, dot_product, opposite in *. simpl in *.
  set (n := sqrt (x0 * x0 + x1 * x1 + x2 * x2)) in *.
  set (m := sqrt (y0 * y0 + y1 * y1 + y2 * y2)) in *.
  assert (0 < n)%R as Hn by (by apply sqrt_lt_R0).
  assert (0 < m)%R as Hm by (by apply sqrt_lt_R0).
  rewrite (proj2 (unit_dot_opposite _ _ _ _ _ _ Ha Hb)). split.
  - intros (E0 & E1 & E2). exists (m / n)%R. split.
    + by apply Rdiv_lt_0_compat.
    + f_equal; [f_equal|].
      * replace y0 with (y0 / m * m)%R by (field; lra). rewrite E0. field. lra.
      * replace y1 with (y1 / m * m)%R by (field; lra). rewrite E1. field. lra.
      * replace y2 with (y2 / m * m)%R by (field; lra). rewrite E2. field. lra.
  - intros (k & Hk & [= -> -> ->]).
    assert (m = k * n)%R as ->.
    { unfold m, n.
      replace (- k * x0 * (- k * x0) + - k * x1 * (- k * x1) + - k * x2 * (- k * x2))%R
        with ((k * k) * (x0 * x0 + x1 * x1 + x2 * x2))%R by ring.
      rewrite sqrt_mult by nra. by rewrite sqrt_square by lra. }
    split_and!; field; lra.
Qed.

(** What [rotation_matrix_between_vectors] does on real vectors that are
    not zero: it raises for opposite inputs and returns the formula of the
    source for all others. *)
Lemma rotation_matrix_between_vectors_real (from_vec to_vec : R * R * R) :
  from_vec ≠ (0, 0, 0)%R → to_vec ≠ (0, 0, 0)%R →
  (opposite from_vec to_vec →
     rotation_matrix_between_vectors from_vec to_vec =
       inl (ValueError "Orientation in complete opposite direction")) ∧
  (¬ opposite from_vec to_vec →
     rotation_matrix_between_vectors from_vec to_vec =
       inr (literal_formula (unit_vector from_vec) (unit_vector to_vec))).
Proof.
  intros Hfrom Hto.
  pose proof (unit_dot_opposite_inputs from_vec to_vec Hfrom Hto) as Hopp.
  rewrite rotation_matrix_between_vectors_cases.
  rewrite !normalize_unit_vector, np_dot_dot_product, np_cross_cross_product.
  simpl (feqb _ _).
  destruct (Req_dec_T _ _) as [Hcos|Hcos].
  - split; [done|]. intros Hnot. exfalso. apply Hnot, Hopp. lra.
  - split; [intros Hyes; exfalso; apply Hcos; apply Hopp in Hyes; lra|].
    intros _. f_equal.
    destruct (unit_vector from_vec) as [[a0 a1] a2], (unit_vector to_vec) as [[b0 b1] b2].
    unfold literal_formula, skew_formula, cross_product, dot_product, cross_product_matrix,
      mat_dot, mat_transpose, mat_scale, mat_add, vec_map2, np_identity3, np_dot.
    simpl. tuple_eq; field.
Qed.

(** C6.  In exact arithmetic the function does what the claim says: on
    vectors that are not zero it raises its [ValueError] exactly when the
    inputs point in opposite directions, and returns a matrix otherwise.  In
    binary64 the test [cos == -1.] still fires for [[1,0,0]] and
    [[-1,0,0]], but it misses opposite inputs whose computed dot product is
    rounded: the normalised [[1,1,0]] and [[-1,-1,0]] are exact negatives of
    each other, their dot product is the float next below [1] in absolute
    value (two equal products and a zero, the same sum in every order of
    addition), no error is raised and the identity matrix is returned. *)
Theorem opposite_vectors_raise :
  (∀ from_vec to_vec : R * R * R,
     from_vec ≠ (0, 0, 0)%R → to_vec ≠ (0, 0, 0)%R →
     (rotation_matrix_between_vectors from_vec to_vec =
        inl (ValueError "Orientation in complete opposite direction")
      ↔ opposite from_vec to_vec) ∧
     (¬ opposite from_vec to_vec →
        ∃ m, rotation_matrix_between_vectors from_vec to_vec = inr m)) ∧
  rotation_matrix_between_vectors (1, 0, 0)%float (-1, 0, 0)%float =
    inl (ValueError "Orientation in complete opposite direction") ∧
  normalize (-1, -1, 0)%float =
    (let '(a0, a1, a2) := normalize (1, 1, 0)%float in (- a0, - a1, a2))%float ∧
  np_dot (normalize (1, 1, 0)%float) (normalize (-1, -1, 0)%float)
    = (-0x1.ffffffffffffep-1)%float ∧
  rotation_matrix_between_vectors (1, 1, 0)%float (-1, -1, 0)%float =
    inr np_identity3.
Proof.
  split; [|by vm_compute].
  intros from_vec to_vec Hfrom Hto.
  destruct (rotation_matrix_between_vectors_real from_vec to_vec Hfrom Hto)
    as [Hyes Hno].
  split; [split|].
  - intros Hraise.
    pose proof (unit_dot_opposite_inputs from_vec to_vec Hfrom Hto) as Hopp.
    destruct (Req_dec_T (dot_product (unit_vector from_vec) (unit_vector to_vec)) (-1))
      as [Hcos|Hcos]; [by apply Hopp|].
    assert (¬ opposite from_vec to_vec) as Hnot by (intros Ho; by apply Hcos, Hopp).
    rewrite (Hno Hnot) in Hraise. done.
  - exact Hyes.
  - intros Hnot. eexists. by apply Hno.
Qed.

(** The floating-point evaluations in C6 do not depend on the order in
    which [np.dot] adds its products, fused or not.  The squared lengths of
    [[1,1,0]] and [[-1,-1,0]] are [2] in every order, and the dot product of
    the normalised vectors is below [1] in absolute value in every order;
    the same holds for [[1,0,0]] and [[-1,0,0]] with the value [-1].  For
    [[1,2,2]] and [[-1,-2,-2]], also opposite, the orders disagree: some
    give [-1] and raise, others do not. *)
Remark dot_product_every_order :
  Forall (fun d => d = 2%float) (np_dot_evaluations (1, 1, 0) (1, 1, 0))%float ∧
  Forall (fun d => d = 2%float) (np_dot_evaluations (-1, -1, 0) (-1, -1, 0))%float ∧
  Forall (fun d => d = (-0x1.ffffffffffffep-1)%float)
    (np_dot_evaluations (normalize (1, 1, 0)%float) (normalize (-1, -1, 0)%float)) ∧
  Forall (fun d => d = (-1)%float)
    (np_dot_evaluations (normalize (1, 0, 0)%float) (normalize (-1, 0, 0)%float)) ∧
  Exists (fun d => d = (-1)%float)
    (np_dot_evaluations (normalize (1, 2, 2)%float) (normalize (-1, -2, -2)%float)) ∧
  Exists (fun d => d = (-0x1.fffffffffffffp-1)%float)
    (np_dot_evaluations (normalize (1, 2, 2)%float) (normalize (-1, -2, -2)%float)).
Proof.
  split_and!.
  - vm_compute. repeat constructor.
  - vm_compute. repeat constructor.
  - vm_compute. repeat constructor.
  - vm_compute. repeat constructor.
  - vm_compute. apply Exists_cons_hd. reflexivity.
  - vm_compute. apply Exists_cons_tl, Exists_cons_hd. reflexivity.
Qed.




(** ** Scale *)

Section ScaleFacts.
Context {F : Type} `{Arith F}.

Implicit Types (w : world (F:=F)) (l : loc).

Lemma Scale_to_matrix_spec w l x y z :
  instance w l Scale [x; y; z] →
  Scale_to_matrix l w = (inr (np_diag [x; y; z; f1]), w).
Proof.
  intros Hi. unfold Scale_to_matrix.
  by erewrite bind_inr by (by eapply get_array_spec).
Qed.

(** [Scale.from_matrix] on a 4x4 matrix, entry by entry. *)
Lemma Scale_from_matrix_spec w
    (m00 m01 m02 m03 m10 m11 m12 m13 m20 m21 m22 m23 m30 m31 m32 m33 : F) :
  Scale_from_matrix
    [[m00; m01; m02; m03]; [m10; m11; m12; m13];
     [m20; m21; m22; m23]; [m30; m31; m32; m33]] w =
  (inr (length (heap w)),
   instantiated Scale
     (<["_array" := AArray (np_array
         [fsqrt (fadd (fadd (fmul m00 m00) (fmul m10 m10)) (fmul m20 m20));
          fsqrt (fadd (fadd (fmul m01 m01) (fmul m11 m11)) (fmul m21 m21));
          fsqrt (fadd (fadd (fmul m02 m02) (fmul m12 m12)) (fmul m22 m22))])]> ∅) w).
Proof. unfold Scale_from_matrix. by rewrite Scale_new_spec. Qed.

End ScaleFacts.

(** *** Signs in binary64 *)

Lemma binary_round_aux_not_negative p em m e l :
  not_negative (binary_round_aux p em false m e l).
Proof.
  unfold binary_round_aux.
  destruct (shr_fexp p em m e l) as [mrs' e'].
  destruct (shr_fexp p em _ e' loc_Exact) as [mrs'' e''].
  destruct (shr_m mrs''); simpl; [done| |done].
  by destruct (Z.leb e'' (em - p)).
Qed.

Lemma binary_round_not_negative p em m e :
  not_negative (binary_round p em false m e).
Proof.
  unfold binary_round. destruct (shl_align _ _ _).
  apply binary_round_aux_not_negative.
Qed.

Lemma SFsqrt_not_negative p em x : not_negative (SFsqrt p em x).
Proof.
  destruct x as [[]|[]| |[] m e]; simpl; try done.
  destruct (SFsqrt_core_binary p em (Z.pos m) e) as [[mz ez] lz].
  apply binary_round_aux_not_negative.
Qed.

Lemma ltb_zero_not_negative (x : float) :
  not_negative (Prim2SF x) → (x <? 0)%float = false.
Proof.
  rewrite FloatAxioms.ltb_spec. change (Prim2SF 0) with (S754_zero false).
  destruct (Prim2SF x) as [s|s| |s m e]; simpl; intros Hs; try done; by subst.
Qed.

Lemma of_uint63_not_negative n : not_negative (Prim2SF (of_uint63 n)).
Proof.
  rewrite of_uint63_spec. unfold binary_normalize.
  pose proof (Uint63.to_Z_bounded n) as [Hn _].
  destruct (Uint63.to_Z n); simpl; [done| |lia].
  apply binary_round_not_negative.
Qed.

Lemma SF2Prim_not_negative x : not_negative x → not_negative (Prim2SF (SF2Prim x)).
Proof.
  destruct x as [[]|[]| |[] m e]; simpl; intros Hs; try done.
  rewrite Z_ldexp_spec. unfold SFldexp.
  match goal with
  | |- context [Prim2SF (of_uint63 ?n)] =>
      generalize (of_uint63_not_negative n);
      destruct (Prim2SF (of_uint63 n)) as [s|s| |s m' e']; simpl; intros Hn; try done
  end.
  subst. apply binary_round_not_negative.
Qed.

Lemma f32_round_not_negative x :
  not_negative (Prim2SF x) → not_negative (Prim2SF (f32_round x)).
Proof.
  unfold f32_round. intros Hx.
  destruct (Prim2SF x) as [s|s| |s m e] eqn:E; try (by rewrite E).
  simpl in Hx. subst. apply SF2Prim_not_negative, binary_round_not_negative.
Qed.

(** A square root stored as float32 never compares below zero. *)
Lemma stored_sqrt_never_negative (x : float) :
  (f32_round (PrimFloat.sqrt x) <? 0)%float = false.
Proof.
  apply ltb_zero_not_negative, f32_round_not_negative.
  rewrite FloatAxioms.sqrt_spec. apply SFsqrt_not_negative.
Qed.

(** *** Column norms *)

Lemma sqrt_4 : sqrt (-2 * -2 + 0 * 0 + 0 * 0) = 2%R.
Proof.
  replace (-2 * -2 + 0 * 0 + 0 * 0)%R with (2 * 2)%R by lra.
  apply sqrt_square. lra.
Qed.

Lemma sqrt_1_mid : sqrt (0 * 0 + 1 * 1 + 0 * 0) = 1%R.
Proof. replace (0 * 0 + 1 * 1 + 0 * 0)%R with 1%R by lra. apply sqrt_1. Qed.

Lemma sqrt_1_last : sqrt (0 * 0 + 0 * 0 + 1 * 1) = 1%R.
Proof. replace (0 * 0 + 0 * 0 + 1 * 1)%R with 1%R by lra. apply sqrt_1. Qed.

(** C10.  Over the real numbers, [Scale.from_matrix] of a 4x4 matrix returns
    a new Scale whose three components are the Euclidean norms of the columns
    of the top-left 3x3 block, each of them nonnegative; in binary64 with
    float32 storage the components are the rounded norms and none of them
    compares below zero.  Hence [Scale(-2, 1, 1)] does not come back from
    [to_matrix] followed by [from_matrix]: the result is [(2, 1, 1)], over the
    reals and in floating point. *)
Theorem Scale_from_matrix_norms (w : world (F:=R))
    (m00 m01 m02 m03 m10 m11 m12 m13 m20 m21 m22 m23 m30 m31 m32 m33 : R) :
  let n0 := sqrt (m00 * m00 + m10 * m10 + m20 * m20) in
  let n1 := sqrt (m01 * m01 + m11 * m11 + m21 * m21) in
  let n2 := sqrt (m02 * m02 + m12 * m12 + m22 * m22) in
  (∃ w',
     Scale_from_matrix
       [[m00; m01; m02; m03]; [m10; m11; m12; m13];
        [m20; m21; m22; m23]; [m30; m31; m32; m33]] w = (inr (length (heap w)), w') ∧
     instance w' (length (heap w)) Scale [n0; n1; n2] ∧
     get (length (heap w)) "xyz" w' = (inr (Sequence [n0; n1; n2]), w')) ∧
  (0 <= n0 ∧ 0 <= n1 ∧ 0 <= n2)%R ∧
  (∀ (wf : world (F:=float))
     (f00 f01 f02 f03 f10 f11 f12 f13 f20 f21 f22 f23 f30 f31 f32 f33 : float),
     ∃ c0 c1 c2 wf',
       Scale_from_matrix
         [[f00; f01; f02; f03]; [f10; f11; f12; f13];
          [f20; f21; f22; f23]; [f30; f31; f32; f33]] wf
         = (inr (length (heap wf)), wf') ∧
       instance wf' (length (heap wf)) Scale [c0; c1; c2] ∧
       c0 = f32_round (PrimFloat.sqrt (f00 * f00 + f10 * f10 + f20 * f20)) ∧
       c1 = f32_round (PrimFloat.sqrt (f01 * f01 + f11 * f11 + f21 * f21)) ∧
       c2 = f32_round (PrimFloat.sqrt (f02 * f02 + f12 * f12 + f22 * f22)) ∧
       (c0 <? 0)%float = false ∧ (c1 <? 0)%float = false ∧ (c2 <? 0)%float = false) ∧
  (∃ s m w1 s' w2,
     Scale_new [-2; 1; 1]%R w = (inr s, w1) ∧
     Scale_to_matrix s w1 = (inr m, w1) ∧
     Scale_from_matrix m w1 = (inr s', w2) ∧
     get s "xyz" w2 = (inr (Sequence [-2; 1; 1]%R), w2) ∧
     get s' "xyz" w2 = (inr (Sequence [2; 1; 1]%R), w2)) ∧
  ((s ← Scale_new [-2; 1; 1]%float;
    m ← Scale_to_matrix s;
    s' ← Scale_from_matrix m;
    get s' "xyz") empty_world).1 = inr (Sequence [2; 1; 1]%float).
Proof.
  intros n0 n1 n2. split_and!; [|apply sqrt_pos..| | |by vm_compute].
  - eexists. split; [apply Scale_from_matrix_spec|].
    assert (instance
      (instantiated Scale (<["_array" := AArray (np_array (F:=R)
         [sqrt (m00 * m00 + m10 * m10 + m20 * m20);
          sqrt (m01 * m01 + m11 * m11 + m21 * m21);
          sqrt (m02 * m02 + m12 * m12 + m22 * m22)])]> ∅) w)
      (length (heap w)) Scale [n0; n1; n2]) as Hi
      by (by apply instance_instantiated_new).
    split; [done|]. by eapply get_xyz.
  - intros wf f00 f01 f02 f03 f10 f11 f12 f13 f20 f21 f22 f23 f30 f31 f32 f33.
    eexists _, _, _, _. split; [apply Scale_from_matrix_spec|].
    split; [by apply instance_instantiated_new|].
    split_and!; try done; apply stored_sqrt_never_negative.
  - assert (instance
      (instantiated Scale (<["_array" := AArray (np_array [-2; 1; 1]%R)]> ∅) w)
      (length (heap w)) Scale [-2; 1; 1]%R) as Hs
      by (by apply instance_instantiated_new).
    eexists _, _, _, _, _. split_and!.
    + by apply Scale_new_spec.
    + by apply Scale_to_matrix_spec.
    + apply Scale_from_matrix_spec.
    + eapply get_xyz; [by apply instance_instantiated_old|done..].
    + simpl (fmul _ _). simpl (fadd _ _). simpl (fsqrt _).
      rewrite sqrt_4, sqrt_1_mid, sqrt_1_last.
      eapply get_xyz; [by apply instance_instantiated_new|done..].
Qed.

(** * Further properties *)

(** ** Translation: arithmetic and constructor *)

Section TranslationMore.
Context {F : Type} `{Arith F}.

Implicit Types (w : world (F:=F)) (l t : loc) (c : cls) (a b xs : list F).

(** [t + other] for a bare sequence of three numbers or another Translation:
    the result is a new Translation that holds the elementwise sums in
    float32 arithmetic, that is, each number of the operand is converted to
    float32, added to the component, and the sum is rounded to float32;
    every object that existed before is unchanged. *)
Theorem Translation_add_spec w t a (other : operand) b :
  instance w t Translation a → length a = 3 → length b = 3 →
  other = Seq b ∨ (∃ o, other = Ref o ∧ instance w o Translation b) →
  ∃ w',
    Translation__add__ t other w = (inr (length (heap w)), w') ∧
    instance w' (length (heap w)) Translation
      (np_array (zip_with (fun x y => fadd x (f32 y)) a b)) ∧
    (∀ l ob, heap w !! l = Some ob → heap w' !! l = Some ob).
Proof.
  intros Hi Hlen Hb Hother. eexists. split_and!.
  - unfold Translation__add__.
    erewrite bind_inr; cycle 1.
    { destruct Hother as [->|(o & -> & Ho)]; [reflexivity|by eapply operand_oth_Ref]. }
    rewrite decide_False by (intros ?; done).
    erewrite bind_inr by (by erewrite bind_inr by (by eapply get_xyz)).
    apply Translation_new_spec. rewrite length_zip_with. lia.
  - apply instance_instantiated_new. apply lookup_insert_eq.
  - intros l ob. apply heap_instantiated_old.
Qed.

(** A bare sequence whose length is not three is refused by [+] and by [-]
    with the [ValueError] of the source, before anything is read or
    allocated. *)
Theorem Translation_wrong_length w t xs :
  length xs ≠ 3 →
  Translation__add__ t (Seq xs) w =
    (inl (ValueError "Other must have length of 3"), w) ∧
  Translation__sub__ t (Seq xs) w =
    (inl (ValueError "Other must have length of 3"), w).
Proof.
  intros Hxs. split.
  - unfold Translation__add__. erewrite bind_inr by reflexivity. by rewrite decide_True.
  - by apply Translation_sub_wrong_length.
Qed.

Lemma Translation_new_fail w args :
  length args ≠ 3 →
  Translation_new args w =
    (inl (AssertionError "Must be xyz coordinates"),
     World (heap w ++ [Object Translation ∅]) (class_ns w) (observed w)).
Proof.
  intros Hlen. unfold Translation_new, new, Translation__init__.
  erewrite bind_inr by reflexivity.
  erewrite bind_inl; [done|]. by rewrite decide_False.
Qed.

Lemma Scale_new_fail w args :
  length args ≠ 1 → length args ≠ 3 →
  Scale_new args w =
    (inl (AssertionError "Must be xyz coordinates"),
     World (heap w ++ [Object Scale ∅]) (class_ns w) (observed w)).
Proof.
  intros Hlen1 Hlen3. unfold Scale_new, new, Scale__init__.
  erewrite bind_inr by reflexivity.
  erewrite bind_inl; [done|].
  rewrite (decide_False (P := length args = 1)) by done. simpl.
  by rewrite decide_False.
Qed.

(** [Translation] insists on exactly three arguments; [Scale] on one or
    three.  Otherwise the constructor raises the [AssertionError] of the
    source, no existing object changes and no accessor is installed. *)
Theorem constructor_arity w args :
  (length args ≠ 3 →
     ∃ w', Translation_new args w = (inl (AssertionError "Must be xyz coordinates"), w') ∧
           (∀ l ob, heap w !! l = Some ob → heap w' !! l = Some ob) ∧
           class_ns w' = class_ns w) ∧
  (length args ≠ 1 → length args ≠ 3 →
     ∃ w', Scale_new args w = (inl (AssertionError "Must be xyz coordinates"), w') ∧
           (∀ l ob, heap w !! l = Some ob → heap w' !! l = Some ob) ∧
           class_ns w' = class_ns w).
Proof.
  split.
  - intros Hlen. eexists. split_and!.
    + by apply Translation_new_fail.
    + intros l ob Hl. simpl. by apply lookup_app_l_Some.
    + done.
  - intros Hlen1 Hlen3. eexists. split_and!.
    + by apply Scale_new_fail.
    + intros l ob Hl. simpl. by apply lookup_app_l_Some.
    + done.
Qed.

(** [Scale(s)] is [Scale(s, s, s)]: the same reference and the same world. *)
Theorem Scale_broadcast w (s : F) :
  Scale_new [s] w = Scale_new [s; s; s] w ∧
  ∃ w', Scale_new [s] w = (inr (length (heap w)), w') ∧
        instance w' (length (heap w)) Scale [f32 s; f32 s; f32 s].
Proof.
  split; [done|]. eexists. split.
  - by apply (Scale_new_spec [s; s; s]).
  - by apply instance_instantiated_new.
Qed.

(** What a constructor returns has as many components as its class has
    axes: three for Translation, Scale and the Euler rotations, four for a
    quaternion.  The components are the arguments converted to float32. *)
Theorem constructed_size w args axes l w' :
  (Translation_new args w = (inr l, w') ∨ Scale_new args w = (inr l, w') ∨
   RotationEulerRadians_new args axes w = (inr l, w') ∨
   RotationEulerDegrees_new args axes w = (inr l, w') ∨
   RotationQuaternion_new args w = (inr l, w')) →
  ∃ c a, instance w' l c a ∧ length a = length (coords c) ∧
         l = length (heap w) ∧ heap w !! l = None ∧
         (a = np_array args ∨
          c = Scale ∧ ∃ s, args = [s] ∧ a = np_array [s; s; s]).
Proof.
  assert (heap w !! length (heap w) = None) as Hnone by (by apply lookup_ge_None).
  intros [Hnew | [Hnew | [Hnew | [Hnew | Hnew]]]].
  - destruct (decide (length args = 3)) as [Hlen|Hlen].
    + rewrite Translation_new_spec in Hnew by done. injection Hnew as <- <-.
      exists Translation, (np_array args). split_and!; try done.
      * by apply instance_instantiated_new.
      * unfold np_array. by rewrite length_fmap.
      * by left.
    + rewrite Translation_new_fail in Hnew by done. congruence.
  - destruct (decide (length args = 1)) as [Hlen1|Hlen1].
    + destruct args as [|s [|]]; try done.
      change (Scale_new [s] w) with (Scale_new [s; s; s] w) in Hnew.
      rewrite (Scale_new_spec [s; s; s]) in Hnew by done. injection Hnew as <- <-.
      exists Scale, (np_array [s; s; s]). split_and!; try done.
      * by apply instance_instantiated_new.
      * right. split; [done|]. by exists s.
    + destruct (decide (length args = 3)) as [Hlen|Hlen].
      * rewrite Scale_new_spec in Hnew by done. injection Hnew as <- <-.
        exists Scale, (np_array args). split_and!; try done.
        -- by apply instance_instantiated_new.
        -- unfold np_array. by rewrite length_fmap.
        -- by left.
      * rewrite Scale_new_fail in Hnew by done. congruence.
  - destruct args as [|x [|y [|z [|]]]]; try done.
    rewrite RotationEulerRadians_new_spec in Hnew. injection Hnew as <- <-.
    exists RotationEulerRadians, (np_array [x; y; z]). split_and!; try done.
    + by apply instance_instantiated_new.
    + by left.
  - destruct args as [|x [|y [|z [|]]]]; try done.
    rewrite RotationEulerDegrees_new_spec in Hnew. injection Hnew as <- <-.
    exists RotationEulerDegrees, (np_array [x; y; z]). split_and!; try done.
    + by apply instance_instantiated_new.
    + by left.
  - destruct args as [|q0 [|q1 [|q2 [|q3 [|]]]]]; try done.
    rewrite RotationQuaternion_new_spec in Hnew. injection Hnew as <- <-.
    exists RotationQuaternion, (np_array [q0; q1; q2; q3]). split_and!; try done.
    + by apply instance_instantiated_new.
    + by left.
Qed.

End TranslationMore.

(** The sum is taken in float32: the first number of the operand lies just
    above half a unit in the last place of [1], and is rounded to exactly
    half of it before the addition, so the first component stays [1]. *)
Lemma float32_sums :
  np_array (zip_with (fun x y => x + f32 y) (np_array [1; 2; 3]) [0x1.0000001p-24; 5; 6])%float
  = [1; 7; 9]%float.
Proof. by vm_compute. Qed.

Lemma Translation_add_spec_witness :
  instance world_t123 0 Translation (np_array [1; 2; 3]%float) ∧
  ∃ w', Translation__add__ 0 (Seq [0x1.0000001p-24; 5; 6]%float) world_t123 = (inr 1, w') ∧
        instance w' 1 Translation [1; 7; 9]%float.
Proof.
  split; [apply instance_world_t123|].
  destruct (Translation_add_spec world_t123 0 (np_array [1; 2; 3]%float)
              (Seq [0x1.0000001p-24; 5; 6]%float) [0x1.0000001p-24; 5; 6]%float)
    as (w' & Hadd & Hinst & _).
  - apply instance_world_t123.
  - reflexivity.
  - reflexivity.
  - by left.
  - exists w'. split; [exact Hadd|]. rewrite <- float32_sums. exact Hinst.
Defined.

Lemma Translation_sub_translation_witness :
  instance world_t123 0 Translation (np_array [1; 2; 3]%float) ∧
  ∃ w', Translation__sub__ 0 (Ref 0) world_t123 = (inr 1, w').
Proof.
  split; [apply instance_world_t123|].
  destruct (Translation_sub_translation world_t123 0 (np_array [1; 2; 3]%float)
              0 (np_array [1; 2; 3]%float)) as (w' & Hsub & _).
  - apply instance_world_t123.
  - reflexivity.
  - apply instance_world_t123.
  - reflexivity.
  - by exists w'.
Defined.

Lemma Translation_wrong_length_witness :
  length [4; 5]%float ≠ 3 ∧
  Translation__add__ 0 (Seq [4; 5]%float) world_t123 =
    (inl (ValueError "Other must have length of 3"), world_t123).
Proof.
  split; [by vm_compute|].
  by destruct (Translation_wrong_length world_t123 0 [4; 5]%float) as [Hadd _].
Defined.

Lemma constructed_size_witness :
  Translation_new [1; 2; 3]%float empty_world = (inr 0, world_t123) ∧
  ∃ c a, instance world_t123 0 c a ∧ length a = length (coords c).
Proof.
  assert (Translation_new [1; 2; 3]%float empty_world = (inr 0, world_t123)) as Hnew.
  { unfold world_t123. by rewrite Translation_new_spec. }
  split; [exact Hnew|].
  destruct (constructed_size empty_world [1; 2; 3]%float "rxyz" 0 world_t123)
    as (c & a & Hi & Hlen & _); [left; exact Hnew|].
  exists c, a. split; assumption.
Defined.

(** ** Matrices of Translation and Scale *)

Section MatrixMore.
Context {F : Type} `{Arith F}.

Implicit Types (w : world (F:=F)) (l t : loc) (c : cls) (a : list F).
Implicit Types (matrix : list (list F)).

Lemma Translation_to_matrix_spec w t x y z :
  instance w t Translation [x; y; z] →
  Translation_to_matrix t w =
    (inr [[f1; f0; f0; x]; [f0; f1; f0; y]; [f0; f0; f1; z]; [f0; f0; f0; f1]], w).
Proof.
  intros Hi. unfold Translation_to_matrix.
  by erewrite bind_inr by (by eapply get_array_spec).
Qed.

(** [Translation.to_matrix] is the identity matrix with the components in
    the first three rows of the last column, and [Translation.from_matrix]
    reads them back: the round trip returns a new Translation with the same
    components, converted to float32 once more, and changes no existing
    object. *)
Theorem Translation_matrix_round_trip w t x y z :
  instance w t Translation [x; y; z] →
  ∃ m w',
    Translation_to_matrix t w = (inr m, w) ∧
    m = [[f1; f0; f0; x]; [f0; f1; f0; y]; [f0; f0; f1; z]; [f0; f0; f0; f1]] ∧
    Translation_from_matrix m w = (inr (length (heap w)), w') ∧
    instance w' (length (heap w)) Translation [f32 x; f32 y; f32 z] ∧
    (∀ l ob, heap w !! l = Some ob → heap w' !! l = Some ob) ∧
    observed w' = observed w.
Proof.
  intros Hi. eexists _, _. split_and!.
  - by apply Translation_to_matrix_spec.
  - done.
  - unfold Translation_from_matrix. erewrite bind_inr by reflexivity.
    by apply Translation_new_spec.
  - by apply instance_instantiated_new.
  - intros l ob. apply heap_instantiated_old.
  - done.
Qed.

(** [Translation.from_matrix] and the shape of its argument, for a matrix
    with at least one row: without a fourth column it is an [IndexError];
    with a fourth column but fewer than three rows the constructor gets too
    few values and raises its [AssertionError]; with three rows or more the
    result holds the first three entries of the fourth column. *)
Theorem Translation_from_matrix_shape w matrix :
  (Exists (fun row => length row ≤ 3) (take 3 matrix) →
     Translation_from_matrix matrix w = (inl IndexError, w)) ∧
  (matrix ≠ [] → Forall (fun row => 3 < length row) (take 3 matrix) →
     length matrix < 3 →
     ∃ w', Translation_from_matrix matrix w =
             (inl (AssertionError "Must be xyz coordinates"), w')) ∧
  (Forall (fun row => 3 < length row) (take 3 matrix) →
     3 ≤ length matrix →
     ∃ col w',
       mapM (fun row : list F => row !! 3) (take 3 matrix) = Some col ∧
       Translation_from_matrix matrix w = (inr (length (heap w)), w') ∧
       instance w' (length (heap w)) Translation (f32 <$> col)).
Proof.
  assert (∀ rows : list (list F), Forall (fun row => 3 < length row) rows →
            ∃ col, mapM (fun row : list F => row !! 3) rows = Some col ∧
                   length col = length rows) as Hcol.
  { intros rows Hrows.
    destruct (mapM (fun row : list F => row !! 3) rows) as [col|] eqn:E.
    - exists col. split; [done|]. symmetry. by eapply length_mapM.
    - apply mapM_None, Exists_exists in E as (row & Hrow & Hnone).
      rewrite Forall_forall in Hrows. apply Hrows in Hrow.
      apply lookup_ge_None in Hnone. lia. }
  split_and!.
  - intros Hshape. unfold Translation_from_matrix.
    erewrite bind_inl; [done|]. unfold lift, np_column3.
    rename Hshape into Hex.
    destruct matrix as [|row0 rows]; [done|].
    destruct (mapM _ (take 3 (row0 :: rows))) as [col|] eqn:E; [|done].
    apply mapM_Some in E. apply Exists_exists in Hex as (row & Hrow & Hlen).
    apply list_elem_of_lookup in Hrow as [i Hi].
    destruct (Forall2_lookup_l _ _ _ _ _ E Hi) as (x & _ & Hx).
    apply lookup_lt_Some in Hx. lia.
  - intros Hne Hall Hlen. destruct (Hcol _ Hall) as (col & Hm & Hlencol).
    rewrite length_take in Hlencol.
    unfold Translation_from_matrix.
    erewrite bind_inr; cycle 1.
    { unfold lift, np_column3. destruct matrix; [done|]. by rewrite Hm. }
    eexists. apply Translation_new_fail. lia.
  - intros Hall Hlen. destruct (Hcol _ Hall) as (col & Hm & Hlencol).
    rewrite length_take in Hlencol.
    exists col. eexists. split; [done|].
    assert (Translation_from_matrix matrix w = Translation_new col w) as ->.
    { unfold Translation_from_matrix. erewrite bind_inr; [done|].
      unfold lift, np_column3. destruct matrix; [simpl in Hlen; lia|]. by rewrite Hm. }
    split; [apply Translation_new_spec; lia|].
    by apply instance_instantiated_new.
Qed.

End MatrixMore.

Lemma sqrt_square_abs (x : R) : sqrt (x * x + 0 * 0 + 0 * 0) = Rabs x.
Proof.
  replace (x * x + 0 * 0 + 0 * 0)%R with (Rsqr x) by (unfold Rsqr; lra).
  apply sqrt_Rsqr_abs.
Qed.

Lemma sqrt_square_abs_mid (x : R) : sqrt (0 * 0 + x * x + 0 * 0) = Rabs x.
Proof.
  replace (0 * 0 + x * x + 0 * 0)%R with (Rsqr x) by (unfold Rsqr; lra).
  apply sqrt_Rsqr_abs.
Qed.

Lemma sqrt_square_abs_last (x : R) : sqrt (0 * 0 + 0 * 0 + x * x) = Rabs x.
Proof.
  replace (0 * 0 + 0 * 0 + x * x)%R with (Rsqr x) by (unfold Rsqr; lra).
  apply sqrt_Rsqr_abs.
Qed.

(** Over the real numbers, [Scale.from_matrix(s.to_matrix())] is a new Scale
    that holds the absolute values of the components of [s]: the round trip
    keeps a Scale without negative components and loses the signs of the
    others.  The receiver itself is unchanged. *)
Theorem Scale_matrix_round_trip (w : world (F:=R)) (s : loc) (x y z : R) :
  instance w s Scale [x; y; z] →
  ∃ s' w',
    Scale_to_matrix s w =
      (inr [[x; 0; 0; 0]; [0; y; 0; 0]; [0; 0; z; 0]; [0; 0; 0; 1]]%R, w) ∧
    (m ← Scale_to_matrix s; Scale_from_matrix m) w = (inr s', w') ∧
    s' ≠ s ∧
    get s' "xyz" w' = (inr (Sequence [Rabs x; Rabs y; Rabs z]), w') ∧
    get s "xyz" w' = (inr (Sequence [x; y; z]), w') ∧
    ((0 <= x)%R → (0 <= y)%R → (0 <= z)%R →
       get s' "xyz" w' = (inr (Sequence [x; y; z]), w')).
Proof.
  intros Hi.
  assert (Scale_to_matrix s w =
      (inr [[x; 0; 0; 0]; [0; y; 0; 0]; [0; 0; z; 0]; [0; 0; 0; 1]]%R, w)) as Hm
    by (by rewrite (Scale_to_matrix_spec w s x y z Hi)).
  assert (get (length (heap w)) "xyz"
      (instantiated Scale (<["_array" := AArray [Rabs x; Rabs y; Rabs z]]> ∅) w) =
      (inr (Sequence [Rabs x; Rabs y; Rabs z]),
       instantiated Scale (<["_array" := AArray [Rabs x; Rabs y; Rabs z]]> ∅) w)) as Hget.
  { eapply get_xyz; [by apply instance_instantiated_new|done..]. }
  exists (length (heap w)). eexists. split_and!.
  - done.
  - erewrite bind_inr by done. rewrite Scale_from_matrix_spec.
    simpl (fmul _ _). simpl (fadd _ _). simpl (fsqrt _).
    rewrite sqrt_square_abs, sqrt_square_abs_mid, sqrt_square_abs_last. done.
  - apply instance_lt in Hi. lia.
  - done.
  - eapply get_xyz; [by apply instance_instantiated_old|done..].
  - intros Hx Hy Hz. by rewrite <- (Rabs_pos_eq x), <- (Rabs_pos_eq y), <- (Rabs_pos_eq z) at 2.
Qed.

Lemma Translation_matrix_round_trip_witness :
  instance world_t123 0 Translation [f32_round 1; f32_round 2; f32_round 3]%float ∧
  ∃ m, Translation_to_matrix 0 world_t123 = (inr m, world_t123).
Proof.
  split; [apply instance_world_t123|].
  destruct (Translation_matrix_round_trip world_t123 0
              (f32_round 1) (f32_round 2) (f32_round 3) instance_world_t123)
    as (m & w' & Hm & _).
  exists m. exact Hm.
Defined.

Lemma instance_world_s211 : instance world_s211 0 Scale [-2; 1; 1]%R.
Proof.
  unfold world_s211. rewrite Scale_new_spec by done.
  by apply (instance_instantiated_new Scale _ empty_world).
Qed.

Lemma Scale_matrix_round_trip_witness :
  instance world_s211 0 Scale [-2; 1; 1]%R ∧
  ∃ s' w', (m ← Scale_to_matrix 0; Scale_from_matrix m) world_s211 = (inr s', w') ∧
           get s' "xyz" w' = (inr (Sequence [Rabs (-2); Rabs 1; Rabs 1]), w').
Proof.
  split; [apply instance_world_s211|].
  destruct (Scale_matrix_round_trip world_s211 0 (-2) 1 1 instance_world_s211)
    as (s' & w' & _ & Hrt & _ & Hget & _).
  exists s', w'. split; assumption.
Defined.

(** ** Named accessors: frame, broadcasting, errors *)

Section AccessorMore.
Context {F : Type} `{Arith F}.

Implicit Types (w : world (F:=F)) (l self : loc) (c : cls) (a : list F).
Implicit Types (d : gmap string (attr (F:=F))) (P : list ascii) (idxs : list nat).
Implicit Types (ns : gmap (cls * string) property).

Lemma forallb_lt a idxs :
  forallb (fun i => i <? length a) idxs = true ↔ Forall (fun i => i < length a) idxs.
Proof.
  rewrite forallb_forall, Forall_forall. split; intros Hall i Hi.
  - apply Nat.ltb_lt, Hall. by apply list_elem_of_In.
  - apply Nat.ltb_lt, Hall. by apply list_elem_of_In.
Qed.

(** What a write through the accessor [P] does, for any value. *)
Lemma set_spec w l c d a P idxs (value : pyvalue F) :
  heap w !! l = Some (Object c d) →
  d !! "_array" = Some (AArray a) →
  installed (class_ns w) c →
  P ∈ accessor_args c →
  mapM (dict_get (coords c)) P = Some idxs →
  set l (string_of_list_ascii P) value w =
    match np_setitem a idxs value with
    | inr a' => (inr tt, updated l (Object c (<["_array" := AArray a']> d)) w)
    | inl e => (inl e, w)
    end.
Proof.
  intros Hl Ha Hns HP Hm. unfold set.
  erewrite bind_inr by (eapply find_property_spec; [by exists d|done..]).
  by erewrite setter_spec.
Qed.

Lemma set_Sequence_succeeds w l c a P (vs : list F) :
  instance w l c a →
  length a = length (coords c) →
  1 ≤ length P ≤ length (coords c) →
  Forall (.∈ dict_keys (coords c)) P →
  length vs = length P →
  ∃ w', set l (string_of_list_ascii P) (Sequence vs) w = (inr tt, w').
Proof.
  intros Hi Hlen HP Hall Hvs.
  assert (P ∈ accessor_args c) as Hacc by (by apply elem_of_accessor_args).
  destruct (gen_getter_setter_funs_Some c P Hall) as (idxs & Hm & _).
  pose proof (indices_in_range c P idxs Hm) as Hrange. rewrite <- Hlen in Hrange.
  pose proof Hi as (d & Hl & Ha & Hns).
  eexists. rewrite (set_spec w l c d a P idxs) by done.
  rewrite np_setitem_Sequence; [done|done|].
  rewrite Hvs. by eapply length_mapM.
Qed.

Lemma last_write_zip_None idxs (vs : list F) i :
  i ∉ idxs → last_write (zip idxs vs) i = None.
Proof.
  intros Hi. destruct (last_write (zip idxs vs) i) eqn:E; [|done].
  by apply last_write_zip_elem_of in E.
Qed.

Lemma indices_elem_of c P idxs i :
  mapM (dict_get (coords c)) P = Some idxs → i ∈ idxs →
  ∃ k, k ∈ P ∧ dict_get (coords c) k = Some i.
Proof.
  intros Hm%mapM_Some Hi. apply list_elem_of_lookup in Hi as [n Hn].
  destruct (Forall2_lookup_r _ _ _ _ _ Hm Hn) as (k & Hk & Hki).
  exists k. split; [|done]. by eapply list_elem_of_lookup_2.
Qed.

(** A write through an accessor keeps the number of components and leaves
    every component whose letter is not in the name as it was: after a
    successful [set] through [P], the single-letter accessor of any other
    axis letter reads what it read before. *)
Theorem set_keeps_other_components w l c a P (value : pyvalue F) w' :
  instance w l c a →
  1 ≤ length P ≤ length (coords c) →
  Forall (.∈ dict_keys (coords c)) P →
  set l (string_of_list_ascii P) value w = (inr tt, w') →
  ∃ a', instance w' l c a' ∧ length a' = length a ∧
    ∀ k, k ∈ dict_keys (coords c) → k ∉ P →
      (get l (string_of_list_ascii [k]) w').1 = (get l (string_of_list_ascii [k]) w).1.
Proof.
  intros Hi HP Hall Hset.
  assert (P ∈ accessor_args c) as Hacc by (by apply elem_of_accessor_args).
  destruct (gen_getter_setter_funs_Some c P Hall) as (idxs & Hm & _).
  pose proof Hi as (d & Hl & Ha & Hns).
  rewrite (set_spec w l c d a P idxs) in Hset by done.
  unfold np_setitem in Hset.
  destruct (broadcast (length idxs) value) as [vs|]; [|done].
  destruct (forallb _ idxs) eqn:Hrange; [|done].
  injection Hset as <-.
  apply forallb_lt in Hrange.
  set (a' := foldl (fun a' iv => <[iv.1 := f32 iv.2]> a') a (zip idxs vs)).
  exists a'. split_and!.
  - by apply instance_updated.
  - apply write_length.
  - intros k Hk HkP.
    assert ([k] ∈ accessor_args c) as Hk1.
    { apply elem_of_accessor_args. split; [|by repeat constructor].
      simpl. destruct c; simpl; lia. }
    rewrite (get_spec _ l c a' [k]); [|by apply instance_updated|done].
    rewrite (get_spec w l c a [k]) by done.
    unfold components. simpl.
    destruct (dict_get_is_Some (coords c) k Hk) as [i Hki]. rewrite Hki. simpl.
    unfold a'. rewrite write_lookup.
    + rewrite last_write_zip_None.
      * by destruct (a !! i).
      * intros Hin. destruct (indices_elem_of c P idxs i Hm Hin) as (k' & Hk' & Hk'i).
        by rewrite (coords_inj c k k' i Hki Hk'i) in HkP.
    + apply Forall_forall. intros [j v] Hjv%elem_of_zip_l.
      rewrite Forall_forall in Hrange. by apply Hrange.
Qed.

Lemma lookups_replicate (x : F) a idxs :
  Forall (fun i => a !! i = Some x) idxs →
  mapM (fun i => a !! i) idxs = Some (replicate (length idxs) x).
Proof.
  intros Hall. apply mapM_Some. induction Hall; simpl; by constructor.
Qed.

(** A scalar written through a multi-letter accessor goes to every named
    component: reading the accessor back returns the scalar, converted to
    float32, once for every letter. *)
Theorem set_scalar_broadcast w l c a P (x : F) :
  instance w l c a →
  length a = length (coords c) →
  1 ≤ length P ≤ length (coords c) →
  Forall (.∈ dict_keys (coords c)) P →
  ∃ w',
    set l (string_of_list_ascii P) (Scalar x) w = (inr tt, w') ∧
    get l (string_of_list_ascii P) w' = (inr (packed (replicate (length P) (f32 x))), w').
Proof.
  intros Hi Hlen HP Hall.
  assert (P ∈ accessor_args c) as Hacc by (by apply elem_of_accessor_args).
  destruct (gen_getter_setter_funs_Some c P Hall) as (idxs & Hm & _).
  pose proof (indices_in_range c P idxs Hm) as Hrange. rewrite <- Hlen in Hrange.
  pose proof Hi as (d & Hl & Ha & Hns).
  assert (length idxs = length P) as Hlenidx by (symmetry; by eapply length_mapM).
  set (a' := foldl (fun a' iv => <[iv.1 := f32 iv.2]> a') a
                (zip idxs (replicate (length idxs) x))).
  exists (updated l (Object c (<["_array" := AArray a']> d)) w). split.
  - rewrite (set_spec w l c d a P idxs) by done.
    by rewrite np_setitem_Scalar.
  - rewrite (get_spec _ l c a' P); [|by apply instance_updated|done].
    rewrite (components_indices c a' P idxs Hm).
    erewrite lookups_replicate; [by rewrite Hlenidx|].
    apply Forall_forall. intros i Hin. unfold a'.
    rewrite write_lookup.
    + destruct (last_write_zip_is_Some idxs (replicate (length idxs) x) i) as [y Hy];
        [by rewrite length_replicate|done|].
      rewrite Hy. f_equal. f_equal.
      clear -Hy. revert Hy. generalize (length idxs) as n.
      induction idxs as [|j idxs IH]; intros [|n] Hy; simpl in *; try done.
      destruct (last_write (zip idxs (replicate n x)) i) eqn:E.
      * apply (IH n). by rewrite E.
      * case_decide; congruence.
    + apply Forall_forall. intros [j v] Hjv%elem_of_zip_l.
      rewrite Forall_forall in Hrange. by apply Hrange.
Qed.

(** A sequence whose length is neither the number of letters nor one cannot
    be written: the setter raises a [ValueError], no component changes and
    the observers are not called. *)
Theorem set_wrong_length w l c a P (vs : list F) :
  instance w l c a →
  length a = length (coords c) →
  1 ≤ length P ≤ length (coords c) →
  Forall (.∈ dict_keys (coords c)) P →
  length vs ≠ length P → length vs ≠ 1 →
  ∃ msg, set l (string_of_list_ascii P) (Sequence vs) w = (inl (ValueError msg), w).
Proof.
  intros Hi Hlen HP Hall Hvs Hvs1.
  assert (P ∈ accessor_args c) as Hacc by (by apply elem_of_accessor_args).
  destruct (gen_getter_setter_funs_Some c P Hall) as (idxs & Hm & _).
  pose proof (indices_in_range c P idxs Hm) as Hrange. rewrite <- Hlen in Hrange.
  pose proof Hi as (d & Hl & Ha & Hns).
  assert (length idxs = length P) as Hlenidx by (symmetry; by eapply length_mapM).
  eexists. rewrite (set_spec w l c d a P idxs) by done.
  unfold np_setitem. apply forallb_lt in Hrange. rewrite Hrange.
  unfold broadcast. rewrite decide_False by lia.
  by destruct vs as [|v [|]].
Qed.

(** When the stored vector is shorter than the axis map (the base class
    does not check the number of arguments), an accessor that names a
    missing component raises [IndexError] on reading.  On writing numpy
    looks at the shape of the value first: a scalar, or a sequence with one
    element or as many as the name has letters, raises [IndexError]; a
    sequence of another length raises [ValueError].  Nothing changes in
    either case. *)
Theorem accessor_out_of_range w l c a P :
  instance w l c a →
  1 ≤ length P ≤ length (coords c) →
  Forall (.∈ dict_keys (coords c)) P →
  Exists (fun k => ∃ i, dict_get (coords c) k = Some i ∧ length a ≤ i) P →
  get l (string_of_list_ascii P) w = (inl IndexError, w) ∧
  (∀ x, set l (string_of_list_ascii P) (Scalar x) w = (inl IndexError, w)) ∧
  (∀ vs, length vs = length P ∨ length vs = 1 →
     set l (string_of_list_ascii P) (Sequence vs) w = (inl IndexError, w)) ∧
  (∀ vs, length vs ≠ length P → length vs ≠ 1 →
     ∃ msg, set l (string_of_list_ascii P) (Sequence vs) w = (inl (ValueError msg), w)).
Proof.
  intros Hi HP Hall Hex.
  assert (P ∈ accessor_args c) as Hacc by (by apply elem_of_accessor_args).
  destruct (gen_getter_setter_funs_Some c P Hall) as (idxs & Hm & _).
  pose proof Hi as (d & Hl & Ha & Hns).
  assert (length idxs = length P) as Hlenidx by (symmetry; by eapply length_mapM).
  assert (Exists (fun i => length a ≤ i) idxs) as Hbad.
  { apply Exists_exists in Hex as (k & Hk & i & Hki & Hle).
    apply Exists_exists. exists i. split; [|done].
    apply mapM_Some in Hm. apply list_elem_of_lookup in Hk as [n Hn].
    destruct (Forall2_lookup_l _ _ _ _ _ Hm Hn) as (i' & Hi' & Hki').
    assert (i' = i) as -> by congruence. by eapply list_elem_of_lookup_2. }
  assert (forallb (fun i => i <? length a) idxs = false) as Hrange.
  { destruct (forallb _ idxs) eqn:Hrange; [|done].
    apply forallb_lt in Hrange. apply Exists_exists in Hbad as (i & Hin & Hle).
    rewrite Forall_forall in Hrange. apply Hrange in Hin. lia. }
  split_and!.
  - rewrite (get_spec w l c a P Hi Hacc), (components_indices c a P idxs Hm).
    destruct (mapM (fun i => a !! i) idxs) as [xs|] eqn:E; [|done].
    apply mapM_Some in E. apply Exists_exists in Hbad as (i & Hin & Hle).
    apply list_elem_of_lookup in Hin as [n Hn].
    destruct (Forall2_lookup_l _ _ _ _ _ E Hn) as (x & _ & Hx).
    apply lookup_lt_Some in Hx. lia.
  - intros x. rewrite (set_spec w l c d a P idxs) by done.
    unfold np_setitem. simpl. by rewrite Hrange.
  - intros vs Hvs. rewrite (set_spec w l c d a P idxs) by done.
    unfold np_setitem, broadcast. rewrite Hlenidx.
    destruct (decide (length vs = length P)); [by rewrite Hrange|].
    destruct Hvs as [?|Hone]; [done|].
    destruct vs as [|v [|]]; try done. by rewrite Hrange.
  - intros vs Hvs Hone. eexists. rewrite (set_spec w l c d a P idxs) by done.
    unfold np_setitem, broadcast. rewrite Hlenidx.
    rewrite decide_False by done. by destruct vs as [|v [|]].
Qed.

(** *** Names that were not generated *)

Lemma only_accessors_empty : only_accessors ∅.
Proof. intros c name p Hp. by rewrite lookup_empty in Hp. Qed.

Lemma only_accessors_install_from xs c ns :
  Forall (.∈ accessor_args c) xs →
  only_accessors ns → only_accessors (install_from xs c ns).
Proof.
  revert ns. induction xs as [|x xs IH]; intros ns Hxs Hns; simpl; [done|].
  apply Forall_cons in Hxs as [Hx Hxs]. apply IH; [done|].
  destruct (gen_getter_setter_funs c x) as [p|]; [|done].
  intros c' name p' Hp'. destruct (decide ((c, string_of_list_ascii x) = (c', name))) as [E|Hne].
  - injection E as <- <-. by exists x.
  - rewrite lookup_insert_ne in Hp' by done. by eapply Hns.
Qed.

(** Instantiating a class keeps the namespaces free of anything but
    generated accessors. *)
Lemma only_accessors_instantiated c d w :
  only_accessors (class_ns w) → only_accessors (class_ns (instantiated c d w)).
Proof.
  intros Hw. simpl. apply only_accessors_install_from; [|done].
  by apply Forall_forall.
Qed.

(** A constructor that returns has instantiated its class once. *)
Lemma constructed_world `{Backend F} w args axes l w' :
  (Translation_new args w = (inr l, w') ∨ Scale_new args w = (inr l, w') ∨
   RotationEulerRadians_new args axes w = (inr l, w') ∨
   RotationEulerDegrees_new args axes w = (inr l, w') ∨
   RotationQuaternion_new args w = (inr l, w')) →
  ∃ c d, w' = instantiated c d w.
Proof.
  intros [Hnew | [Hnew | [Hnew | [Hnew | Hnew]]]].
  - destruct (decide (length args = 3)) as [Hlen|Hlen].
    + rewrite Translation_new_spec in Hnew by done. injection Hnew as <- <-.
      by eexists _, _.
    + unfold Translation_new, new, Translation__init__ in Hnew.
      erewrite bind_inr in Hnew by reflexivity.
      erewrite bind_inl in Hnew; [done|]. by rewrite decide_False.
  - destruct (decide (length args = 1)) as [Hlen1|Hlen1].
    + destruct args as [|s [|]]; try done.
      change (Scale_new [s] w) with (Scale_new [s; s; s] w) in Hnew.
      rewrite (Scale_new_spec [s; s; s]) in Hnew by done. injection Hnew as <- <-.
      by eexists _, _.
    + destruct (decide (length args = 3)) as [Hlen|Hlen].
      * rewrite Scale_new_spec in Hnew by done. injection Hnew as <- <-.
        by eexists _, _.
      * unfold Scale_new, new, Scale__init__ in Hnew.
        erewrite bind_inr in Hnew by reflexivity.
        erewrite bind_inl in Hnew; [done|].
        rewrite (decide_False (P := length args = 1)) by done. simpl.
        by rewrite decide_False.
  - destruct args as [|x [|y [|z [|]]]]; try done.
    rewrite RotationEulerRadians_new_spec in Hnew. injection Hnew as <- <-.
    by eexists _, _.
  - destruct args as [|x [|y [|z [|]]]]; try done.
    rewrite RotationEulerDegrees_new_spec in Hnew. injection Hnew as <- <-.
    by eexists _, _.
  - destruct args as [|q0 [|q1 [|q2 [|q3 [|]]]]]; try done.
    rewrite RotationQuaternion_new_spec in Hnew. injection Hnew as <- <-.
    by eexists _, _.
Qed.

(** Instantiation generates a property for every sequence of one to N axis
    letters of the class and for no other name.  In a world whose class
    namespaces hold generated accessors only, each of the five constructors
    leaves them so; afterwards no class has a property under a name of
    letters w, x, y, z that is not such a sequence for it: a name with a
    letter of another axis map, or with more letters than the class has
    axes, is an ordinary attribute name. *)
Theorem accessor_not_generated `{Backend F} w args axes l w' :
  only_accessors (class_ns w) →
  (Translation_new args w = (inr l, w') ∨ Scale_new args w = (inr l, w') ∨
   RotationEulerRadians_new args axes w = (inr l, w') ∨
   RotationEulerDegrees_new args axes w = (inr l, w') ∨
   RotationQuaternion_new args w = (inr l, w')) →
  only_accessors (class_ns w') ∧
  ∀ c P, Forall (.∈ ["w"; "x"; "y"; "z"]%char) P → P ∉ accessor_args c →
         class_ns w' !! (c, string_of_list_ascii P) = None.
Proof.
  intros Hns Hnew.
  destruct (constructed_world w args axes l w' Hnew) as (c0 & d0 & ->).
  pose proof (only_accessors_instantiated c0 d0 w Hns) as Hns'.
  split; [done|]. intros c P _ HP.
  destruct (class_ns (instantiated c0 d0 w) !! (c, string_of_list_ascii P)) as [p|] eqn:E;
    [|done].
  destruct (Hns' _ _ _ E) as (args' & Hargs & Heq).
  apply string_of_list_ascii_inj in Heq. by subst.
Qed.

End AccessorMore.

Lemma set_keeps_other_components_witness :
  instance world_t123 0 Translation (np_array [1; 2; 3]%float) ∧
  ∃ w', set 0 "zx" (Sequence [7; 8]%float) world_t123 = (inr tt, w') ∧
        (get 0 "y" w').1 = (get 0 "y" world_t123).1.
Proof.
  split; [apply instance_world_t123|].
  destruct (set_Sequence_succeeds world_t123 0 Translation (np_array [1; 2; 3]%float)
              ["z"; "x"]%char [7; 8]%float) as (w' & Hset);
    [apply instance_world_t123|reflexivity|simpl; lia|repeat constructor|reflexivity|].
  exists w'. split; [exact Hset|].
  destruct (set_keeps_other_components world_t123 0 Translation
              (np_array [1; 2; 3]%float) ["z"; "x"]%char (Sequence [7; 8]%float) w')
    as (a' & _ & _ & Hother).
  - apply instance_world_t123.
  - simpl. lia.
  - repeat constructor.
  - exact Hset.
  - apply (Hother "y"%char).
    + simpl. apply list_elem_of_further, list_elem_of_here.
    + intros Hin. apply elem_of_cons in Hin as [?|Hin]; [done|].
      apply elem_of_cons in Hin as [?|Hin]; [done|]. by apply elem_of_nil in Hin.
Defined.

Lemma set_scalar_broadcast_witness :
  instance world_t123 0 Translation (np_array [1; 2; 3]%float) ∧
  ∃ w', set 0 "xyz" (Scalar 5%float) world_t123 = (inr tt, w').
Proof.
  split; [apply instance_world_t123|].
  destruct (set_scalar_broadcast world_t123 0 Translation (np_array [1; 2; 3]%float)
              ["x"; "y"; "z"]%char 5%float) as (w' & Hset & _);
    [apply instance_world_t123|reflexivity|simpl; lia|repeat constructor|].
  exists w'. exact Hset.
Defined.

Lemma set_wrong_length_witness :
  instance world_t123 0 Translation (np_array [1; 2; 3]%float) ∧
  ∃ msg, set 0 "xy" (Sequence [1; 2; 3]%float) world_t123 = (inl (ValueError msg), world_t123).
Proof.
  split; [apply instance_world_t123|].
  apply (set_wrong_length world_t123 0 Translation (np_array [1; 2; 3]%float)
           ["x"; "y"]%char [1; 2; 3]%float);
    [apply instance_world_t123|reflexivity|simpl; lia|repeat constructor|simpl; lia|simpl; lia].
Defined.

Lemma Translation_new_world_t123 :
  Translation_new [1; 2; 3]%float empty_world = (inr 0, world_t123).
Proof. unfold world_t123. by rewrite Translation_new_spec. Qed.

Lemma accessor_not_generated_witness :
  only_accessors (class_ns (empty_world (F:=float))) ∧
  Translation_new [1; 2; 3]%float empty_world = (inr 0, world_t123) ∧
  class_ns world_t123 !! (Translation, "xw") = None ∧
  class_ns world_t123 !! (Translation, "xxxx") = None.
Proof.
  split; [apply only_accessors_empty|]. split; [apply Translation_new_world_t123|].
  destruct (accessor_not_generated (H0:=identity_backend) empty_world [1; 2; 3]%float "rxyz"
              0 world_t123 only_accessors_empty) as [_ Hnone].
  { left. apply Translation_new_world_t123. }
  assert (∀ P, P ∈ accessor_args Translation →
            1 ≤ length P ≤ 3 ∧ Forall (.∈ ["x"; "y"; "z"]%char) P)
    as Hchar by (intros P HP; by apply elem_of_accessor_args in HP).
  split.
  - apply (Hnone Translation ["x"; "w"]%char); [repeat constructor|].
    intros [_ Hall]%Hchar. apply Forall_cons in Hall as [_ Hall].
    apply Forall_cons in Hall as [Hw _].
    by repeat (apply elem_of_cons in Hw as [?|Hw]; [done|]); apply elem_of_nil in Hw.
  - apply (Hnone Translation ["x"; "x"; "x"; "x"]%char); [repeat constructor|].
    intros [Hlen _]%Hchar. simpl in Hlen. lia.
Defined.

Lemma instance_world_c12 : instance world_c12 0 Coordinates (np_array [1; 2]%float).
Proof.
  unfold world_c12. rewrite new_Coordinates.
  by apply (instance_instantiated_new Coordinates _ empty_world).
Qed.

Lemma length_world_c12_array : length (np_array [1; 2]%float) = 2.
Proof. unfold np_array. by rewrite length_fmap. Qed.

Lemma accessor_out_of_range_witness :
  instance world_c12 0 Coordinates (np_array [1; 2]%float) ∧
  get 0 "xz" world_c12 = (inl IndexError, world_c12) ∧
  set 0 "xz" (Sequence [1; 2]%float) world_c12 = (inl IndexError, world_c12) ∧
  ∃ msg, set 0 "xz" (Sequence [1; 2; 3]%float) world_c12 =
           (inl (ValueError msg), world_c12).
Proof.
  split; [apply instance_world_c12|].
  destruct (accessor_out_of_range world_c12 0 Coordinates (np_array [1; 2]%float)
              ["x"; "z"]%char) as (Hget & _ & Hseq & Hbad).
  - apply instance_world_c12.
  - simpl. lia.
  - repeat constructor.
  - apply Exists_cons_tl, Exists_cons_hd. exists 2. split; [reflexivity|].
    rewrite length_world_c12_array. lia.
  - split; [exact Hget|]. split.
    + apply (Hseq [1; 2]%float). by left.
    + apply (Hbad [1; 2; 3]%float); simpl; lia.
Defined.

(** ** Vector utilities over the real numbers *)

(** [cross_product_matrix(v)] is the matrix of the map [x ↦ v × x], and it
    is skew-symmetric: its transpose is the matrix of [-v]. *)
Theorem cross_product_matrix_acts (v x : R * R * R) :
  mat_vec (cross_product_matrix v) x = np_cross v x ∧
  mat_transpose (cross_product_matrix v) =
    cross_product_matrix (let '(v0, v1, v2) := v in (- v0, - v1, - v2))%R.
Proof.
  destruct v as [[v0 v1] v2], x as [[x0 x1] x2]. split.
  - unfold mat_vec, cross_product_matrix, np_cross, np_dot. simpl.
    f_equal; [f_equal|]; lra.
  - unfold mat_transpose, cross_product_matrix. simpl.
    repeat (f_equal; try lra).
Qed.

(** The unhandled case [cos == 1]: for a vector that is not zero and any
    positive multiple of it, [rotation_matrix_between_vectors] returns the
    identity matrix. *)
Theorem rotation_matrix_aligned (k x y z : R) :
  (0 < k)%R → (x, y, z) ≠ (0, 0, 0)%R →
  rotation_matrix_between_vectors (x, y, z) (k * x, k * y, k * z)%R = inr np_identity3.
Proof.
  intros Hk Hne.
  rewrite rotation_matrix_between_vectors_cases.
  rewrite normalize_scale by done.
  pose proof (normalize_unit (x, y, z) Hne) as Hunit.
  destruct (normalize (x, y, z)) as [[a0 a1] a2].
  rewrite Hunit. simpl (feqb _ _).
  destruct (Req_dec_T _ _) as [?|_]; [lra|].
  unfold np_cross, cross_product_matrix, mat_dot, mat_transpose, mat_scale, mat_add,
    vec_map2, np_identity3, np_dot. simpl.
  repeat f_equal; field.
Qed.

(** What the returned matrix does to the normalised [from_vec], for unit
    vectors [a] and [b] with dot product [c]: it sends [a] to
    [b - c (1 - c) (2 + c) a]. *)
Lemma literal_formula_action (a0 a1 a2 b0 b1 b2 : R) :
  let a := (a0, a1, a2) in
  let b := (b0, b1, b2) in
  let c := np_dot a b in
  let v_cpm := cross_product_matrix (np_cross a b) in
  np_dot a a = 1%R → np_dot b b = 1%R →
  mat_vec (mat_add (mat_add np_identity3 v_cpm)
                   (mat_scale (mat_dot v_cpm v_cpm) (fadd (fdiv f1 f1) c))) a =
  (b0 - c * (1 - c) * (2 + c) * a0,
   b1 - c * (1 - c) * (2 + c) * a1,
   b2 - c * (1 - c) * (2 + c) * a2)%R.
Proof.
  intros a b c v_cpm Ha Hb.
  unfold v_cpm, c, a, b, mat_vec, np_cross, cross_product_matrix, mat_dot, mat_transpose,
    mat_scale, mat_add, vec_map2, np_identity3, np_dot in *. simpl in *.
  replace (1 / 1)%R with 1%R by field.
  set (s := (a0 * a0 + a1 * a1 + a2 * a2)%R) in *.
  set (t := (b0 * b0 + b1 * b1 + b2 * b2)%R) in *.
  set (d := (a0 * b0 + a1 * b1 + a2 * b2)%R).
  assert (∀ ai bi : R,
            (ai + s * bi - d * ai + (1 + d) * (d * d - s * t) * ai)%R
            = (bi - d * (1 - d) * (2 + d) * ai)%R) as Hfinal.
  { intros ai bi. rewrite Ha, Hb. ring. }
  f_equal; [f_equal|]; rewrite <- Hfinal; unfold s, t, d; ring.
Qed.

(** The returned matrix and the promise of the docstring, over the reals:
    for inputs that are not zero and not opposite, the matrix sends the
    normalised [from_vec] to the normalised [to_vec] minus
    [cos (1 - cos) (2 + cos)] times the normalised [from_vec]; so it rotates
    [from_vec] onto [to_vec] exactly when the two are orthogonal
    ([cos = 0]) or point the same way ([cos = 1]). *)
Theorem rotation_matrix_maps_from_to (from_vec to_vec : R * R * R) :
  let a := normalize from_vec in
  let b := normalize to_vec in
  let cos := np_dot a b in
  from_vec ≠ (0, 0, 0)%R → to_vec ≠ (0, 0, 0)%R → cos ≠ (-1)%R →
  ∃ m,
    rotation_matrix_between_vectors from_vec to_vec = inr m ∧
    mat_vec m a =
      (let '(a0, a1, a2) := a in
       let '(b0, b1, b2) := b in
       (b0 - cos * (1 - cos) * (2 + cos) * a0,
        b1 - cos * (1 - cos) * (2 + cos) * a1,
        b2 - cos * (1 - cos) * (2 + cos) * a2))%R ∧
    (mat_vec m a = b ↔ cos = 0%R ∨ cos = 1%R).
Proof.
  intros a b cos Hfrom Hto Hcos.
  pose proof (normalize_unit from_vec Hfrom) as Ha.
  pose proof (normalize_unit to_vec Hto) as Hb.
  fold a in Ha. fold b in Hb.
  rewrite rotation_matrix_between_vectors_cases. fold a b cos.
  simpl (feqb _ _). destruct (Req_dec_T _ _) as [?|_]; [lra|].
  eexists. split; [done|].
  clearbody a b. destruct a as [[a0 a1] a2], b as [[b0 b1] b2].
  pose proof (literal_formula_action a0 a1 a2 b0 b1 b2 Ha Hb) as Hact.
  cbv zeta in Hact. fold cos in Hact.
  split; [exact Hact|].
  rewrite Hact. clear Hact.
  assert (-1 <= cos)%R as Hge.
  { unfold cos, np_dot in *. simpl in *.
    pose proof (Rle_0_sqr (a0 + b0)). pose proof (Rle_0_sqr (a1 + b1)).
    pose proof (Rle_0_sqr (a2 + b2)). unfold Rsqr in *. nra. }
  set (q := (cos * (1 - cos) * (2 + cos))%R).
  split.
  - intros Heq. injection Heq as H0 H1 H2.
    assert (q * a0 = 0 ∧ q * a1 = 0 ∧ q * a2 = 0)%R as (Hq0 & Hq1 & Hq2)
      by (split_and!; lra).
    assert (q = 0)%R as Hq.
    { unfold np_dot in Ha. simpl in Ha.
      replace q with (q * (a0 * a0 + a1 * a1 + a2 * a2))%R by (rewrite Ha; ring).
      replace (q * (a0 * a0 + a1 * a1 + a2 * a2))%R
        with (q * a0 * a0 + q * a1 * a1 + q * a2 * a2)%R by ring.
      rewrite Hq0, Hq1, Hq2. ring. }
    unfold q in Hq.
    apply Rmult_integral in Hq as [Hq|Hq]; [|lra].
    apply Rmult_integral in Hq as [Hq|Hq]; [by left|right; lra].
  - intros [Hc|Hc]; unfold q; rewrite Hc; repeat f_equal; ring.
Qed.

Lemma unit_axes_orthogonal :
  np_dot (normalize (1, 0, 0)%R) (normalize (0, 1, 0)%R) = 0%R.
Proof.
  unfold normalize, np_linalg_norm, vec_div, np_dot. simpl. unfold Rdiv. ring.
Qed.

Lemma rotation_matrix_aligned_witness :
  (0 < 2)%R ∧
  rotation_matrix_between_vectors (1, 0, 0)%R (2 * 1, 2 * 0, 2 * 0)%R = inr np_identity3.
Proof.
  split; [lra|].
  apply (rotation_matrix_aligned 2 1 0 0); [lra|].
  intros [=]; lra.
Defined.

Lemma rotation_matrix_maps_from_to_witness :
  np_dot (normalize (1, 0, 0)%R) (normalize (0, 1, 0)%R) ≠ (-1)%R ∧
  ∃ m, rotation_matrix_between_vectors (1, 0, 0)%R (0, 1, 0)%R = inr m ∧
       mat_vec m (normalize (1, 0, 0)%R) = normalize (0, 1, 0)%R.
Proof.
  assert (np_dot (normalize (1, 0, 0)%R) (normalize (0, 1, 0)%R) ≠ (-1)%R) as Hcos
    by (rewrite unit_axes_orthogonal; lra).
  split; [exact Hcos|].
  pose proof (rotation_matrix_maps_from_to (1, 0, 0)%R (0, 1, 0)%R) as Hthm.
  cbv zeta in Hthm.
  destruct Hthm as (m & Hm & _ & Hiff).
  - intros [=]; lra.
  - intros [=]; lra.
  - exact Hcos.
  - exists m. split; [exact Hm|]. apply Hiff. left. apply unit_axes_orthogonal.
Defined.

(** ** Rotations: matrices, [rotate] and unit conversions *)

Section RotationMatrices.
Context {F : Type} `{Arith F} `{Backend F}.

Implicit Types (w : world (F:=F)) (l self : loc) (c : cls) (a v : list F).
Implicit Types (axes units : string) (res : list (list F)).

Lemma shape33_inv res :
  shape33 res →
  ∃ r00 r01 r02 r10 r11 r12 r20 r21 r22,
    res = [[r00; r01; r02]; [r10; r11; r12]; [r20; r21; r22]].
Proof.
  intros [Hlen Hrows].
  destruct res as [|r0 [|r1 [|r2 [|]]]]; try done.
  apply Forall_cons in Hrows as [(? & ? & ? & ->)%length3 Hrows].
  apply Forall_cons in Hrows as [(? & ? & ? & ->)%length3 Hrows].
  apply Forall_cons in Hrows as [(? & ? & ? & ->)%length3 _].
  by repeat eexists.
Qed.

Lemma set_block33_eye res :
  shape33 res → set_block33 (np_eye 4) res = homogeneous res.
Proof. intros (? & ? & ? & ? & ? & ? & ? & ? & ? & ->)%shape33_inv. done. Qed.

Lemma block33_homogeneous res :
  shape33 res → block33 (homogeneous res) = res.
Proof. intros (? & ? & ? & ? & ? & ? & ? & ? & ? & ->)%shape33_inv. done. Qed.

Lemma deref_spec w l (o : object (F:=F)) :
  heap w !! l = Some o → deref l w = (inr o, w).
Proof. intros Hl. unfold deref. by rewrite Hl. Qed.

(** What [to_matrix] of an Euler rotation returns and what it leaves
    behind. *)
Lemma to_matrix_rotation w l c a axes :
  euler_instance w l c a axes →
  ∃ w', to_matrix l w =
          (inr (set_block33 (np_eye 4) (R_as_matrix (as_rotation c a axes))), w') ∧
        observed w' = observed w ∧
        class_ns w' = (if decide (c = RotationEulerDegrees)
                       then install RotationEulerRadians (class_ns w) else class_ns w) ∧
        heap w' = (if decide (c = RotationEulerDegrees)
                   then heap w ++
                        [Object RotationEulerRadians
                           (<["axes" := AStr axes]>
                              (<["_array" := AArray (np_array (np_radians <$> a))]> ∅))]
                   else heap w).
Proof.
  intros Hi.
  pose proof Hi as ([-> | ->] & Hlen & d & Hl & _); unfold to_matrix, as_rotation, radians_of;
    erewrite bind_inr by (by apply deref_spec); simpl.
  - exists w. by erewrite RotationEulerRadians_to_matrix_spec.
  - unfold RotationEulerDegrees_to_matrix.
    erewrite bind_inr by (by eapply RotationEulerDegrees_to_radians_spec).
    apply length3 in Hlen as (x & y & z & ->).
    erewrite RotationEulerRadians_to_matrix_spec
      by (apply euler_instance_new; by left).
    by eexists.
Qed.

(** [to_matrix] of an Euler rotation, in radians or in degrees, returns
    the homogeneous 4x4 matrix of the rotation that scipy builds from the
    angles: the 3x3 rotation matrix in the upper-left block, zeros in the
    rest of the last column and the last row, and one in the corner.  The
    call leaves every existing object as it was; for the radians variant the
    world is unchanged, for the degrees variant one object is created, the
    intermediate radians variant. *)
Theorem to_matrix_homogeneous w l c a axes :
  euler_instance w l c a axes →
  shape33 (R_as_matrix (as_rotation c a axes)) →
  ∃ w',
    to_matrix l w = (inr (homogeneous (R_as_matrix (as_rotation c a axes))), w') ∧
    block33 (homogeneous (R_as_matrix (as_rotation c a axes))) =
      R_as_matrix (as_rotation c a axes) ∧
    (∀ k o, heap w !! k = Some o → heap w' !! k = Some o) ∧
    (c ≠ RotationEulerDegrees → w' = w) ∧
    (c = RotationEulerDegrees → length (heap w') = S (length (heap w))).
Proof.
  intros Hrot Hshape.
  destruct (to_matrix_rotation w l c a axes Hrot) as (w' & Hm & Hobs & Hns & Hheap).
  exists w'. rewrite <- set_block33_eye by done. split_and!; [done| | | |].
  - rewrite set_block33_eye by done. by apply block33_homogeneous.
  - intros k o Hk. rewrite Hheap. case_decide; [|done].
    by apply lookup_app_l_Some.
  - intros Hc. destruct (decide (c = RotationEulerDegrees)); [done|].
    destruct w, w'; simpl in *; congruence.
  - intros Hc. rewrite Hheap, decide_True by done. rewrite length_app. simpl. lia.
Qed.

(** [rotate(vector)] of an Euler rotation is [np.dot] of scipy's 3x3
    rotation matrix with the vector: the way through the 4x4 matrix and back
    adds nothing.  A vector of three numbers gives three numbers; any other
    length makes [np.dot] raise [ValueError].  The receiver is as it was. *)
Theorem rotate_is_matrix_product w l c a axes v :
  euler_instance w l c a axes →
  shape33 (R_as_matrix (as_rotation c a axes)) →
  ∃ w',
    rotate l v w = (np_dot_mv (R_as_matrix (as_rotation c a axes)) v, w') ∧
    (length v = 3 → ∃ xs, np_dot_mv (R_as_matrix (as_rotation c a axes)) v = inr xs ∧
                          length xs = 3) ∧
    (length v ≠ 3 → np_dot_mv (R_as_matrix (as_rotation c a axes)) v =
                    inl (ValueError "shapes not aligned")) ∧
    heap w' !! l = heap w !! l.
Proof.
  intros Hrot Hshape.
  destruct (to_matrix_rotation w l c a axes Hrot) as (w' & Hm & Hobs & Hns & Hheap).
  pose proof Hrot as (Hc & _ & d & Hl & _).
  exists w'. split_and!.
  - unfold rotate. erewrite bind_inr by (by apply deref_spec). simpl.
    assert ((m ← to_matrix l; lift (np_dot_mv (block33 m) v)) w =
            (np_dot_mv (R_as_matrix (as_rotation c a axes)) v, w')) as Hgo.
    { erewrite bind_inr by done.
      rewrite set_block33_eye, block33_homogeneous by done. done. }
    by destruct Hc as [-> | ->].
  - intros Hv. apply shape33_inv in Hshape as (? & ? & ? & ? & ? & ? & ? & ? & ? & ->).
    apply length3 in Hv as (? & ? & ? & ->). by eexists.
  - intros Hv. apply shape33_inv in Hshape as (? & ? & ? & ? & ? & ? & ? & ? & ? & ->).
    unfold np_dot_mv. simpl.
    by destruct (length v) as [|[|[|[|]]]].
  - rewrite Hheap. case_decide; [|done].
    apply lookup_app_l. by eapply lookup_lt_Some.
Qed.

(** [RotationQuaternion.from_matrix] of the matrix that [to_matrix] of an
    Euler rotation returns sees scipy's 3x3 matrix of the receiver and
    nothing else: the result is a new quaternion instance made of the four
    numbers that scipy's [as_quat] gives for it, stored as float32. *)
Theorem from_matrix_of_to_matrix w l c a axes :
  euler_instance w l c a axes →
  shape33 (R_as_matrix (as_rotation c a axes)) →
  ∃ l' w',
    (m ← to_matrix l; RotationQuaternion_from_matrix m) w = (inr l', w') ∧
    heap w !! l' = None ∧
    (let '(q0, q1, q2, q3) :=
       R_as_quat (R_from_matrix (R_as_matrix (as_rotation c a axes))) in
     instance w' l' RotationQuaternion (np_array [q0; q1; q2; q3])).
Proof.
  intros Hrot Hshape.
  destruct (to_matrix_rotation w l c a axes Hrot) as (w1 & Hm & Hobs & Hns & Hheap).
  unfold RotationQuaternion_from_matrix.
  erewrite bind_inr by done.
  rewrite set_block33_eye, block33_homogeneous by done.
  destruct (R_as_quat _) as [[[q0 q1] q2] q3].
  rewrite RotationQuaternion_new_spec.
  do 2 eexists. split_and!; [done| |].
  - apply lookup_ge_None. rewrite Hheap. case_decide; [|done].
    rewrite length_app. simpl. lia.
  - by apply instance_instantiated_new.
Qed.

End RotationMatrices.

Section UnitConversions.
Context {F : Type} `{Arith F} `{Backend F}.

Implicit Types (w : world (F:=F)) (l self : loc) (c : cls) (a v : list F).
Implicit Types (axes units : string).

Lemma euler_instance_lt w l c a axes : euler_instance w l c a axes → l < length (heap w).
Proof. intros Hi. eapply instance_lt. by eapply euler_instance_instance. Qed.

(** [to_degrees] of a radians rotation and [to_radians] of a degrees
    rotation return a new instance of the other variant: its angles are the
    receiver's angles mapped by [np.degrees] (or [np.radians]) and stored
    as float32, its axes spec is the receiver's, and the accessor [xyz]
    reads these angles back.  The receiver is as it was and no observer is
    notified. *)
Theorem euler_unit_conversions w l c a axes :
  euler_instance w l c a axes →
  (c = RotationEulerRadians →
     ∃ l' w', to_degrees l w = (inr l', w') ∧ l' ≠ l ∧
       euler_instance w' l' RotationEulerDegrees (np_array (np_degrees <$> a)) axes ∧
       get l' "xyz" w' = (inr (Sequence (np_array (np_degrees <$> a))), w') ∧
       euler_instance w' l RotationEulerRadians a axes ∧
       observed w' = observed w) ∧
  (c = RotationEulerDegrees →
     ∃ l' w', to_radians l w = (inr l', w') ∧ l' ≠ l ∧
       euler_instance w' l' RotationEulerRadians (np_array (np_radians <$> a)) axes ∧
       get l' "xyz" w' = (inr (Sequence (np_array (np_radians <$> a))), w') ∧
       euler_instance w' l RotationEulerDegrees a axes ∧
       observed w' = observed w).
Proof.
  intros Hi. pose proof (euler_instance_lt _ _ _ _ _ Hi) as Hlt.
  pose proof Hi as (_ & Hlen & d & Hl & _).
  apply length3 in Hlen as (x & y & z & ->).
  split; intros ->.
  - exists (length (heap w)). eexists. split_and!.
    + unfold to_degrees. erewrite bind_inr by (by apply deref_spec). simpl.
      by eapply RotationEulerRadians_to_degrees_spec.
    + lia.
    + apply euler_instance_new. by right.
    + eapply (get_xyz _ _ RotationEulerDegrees); [|done|done].
      eapply euler_instance_instance. apply euler_instance_new. by right.
    + by apply euler_instance_instantiated_old.
    + done.
  - exists (length (heap w)). eexists. split_and!.
    + unfold to_radians. erewrite bind_inr by (by apply deref_spec). simpl.
      by eapply RotationEulerDegrees_to_radians_spec.
    + lia.
    + apply euler_instance_new. by left.
    + eapply (get_xyz _ _ RotationEulerRadians); [|done|done].
      eapply euler_instance_instance. apply euler_instance_new. by left.
    + by apply euler_instance_instantiated_old.
    + done.
Qed.

(** [to_euler(units)] of an Euler rotation returns a new instance with the
    receiver's axes spec.  For a radians receiver the angles are the
    receiver's own (["rad"]) or their [np.degrees] (["deg"]).  A degrees
    receiver is first converted to a radians instance, so its result holds
    the float32 radians (["rad"]) or the [np.degrees] of the float32
    radians (["deg"]), not the receiver's own numbers, and two objects are
    created instead of one.  The receiver is as it was and no observer is
    notified. *)
Theorem to_euler_values w l c a axes units :
  euler_instance w l c a axes →
  lower units ∈ ["rad"; "deg"] →
  ∃ l' w',
    to_euler l units w = (inr l', w') ∧ l' ≠ l ∧
    (lower units = "rad" →
       euler_instance w' l' RotationEulerRadians (np_array (radians_of c a)) axes) ∧
    (lower units ≠ "rad" →
       euler_instance w' l' RotationEulerDegrees
         (np_array (np_degrees <$> radians_of c a)) axes) ∧
    length (heap w') =
      (if decide (c = RotationEulerDegrees) then 2 else 1) + length (heap w) ∧
    euler_instance w' l c a axes ∧
    observed w' = observed w.
Proof.
  intros Hi Hu. pose proof (euler_instance_lt _ _ _ _ _ Hi) as Hlt.
  pose proof Hi as ([-> | ->] & Hlen & d & Hl & _);
    apply length3 in Hlen as (x & y & z & ->);
    unfold to_euler; erewrite bind_inr by (by apply deref_spec); simpl;
    unfold radians_of; simpl.
  - erewrite RotationEulerRadians_to_euler_spec by done.
    case_bool_decide as Hrad.
    + do 2 eexists. split_and!; [done|lia| |done| | |done].
      * intros _. apply euler_instance_new. by left.
      * simpl. rewrite length_app. simpl. lia.
      * by apply euler_instance_instantiated_old.
    + do 2 eexists. split_and!; [done|lia|done| | | |done].
      * intros _. apply euler_instance_new. by right.
      * simpl. rewrite length_app. simpl. lia.
      * by apply euler_instance_instantiated_old.
  - unfold RotationEulerDegrees_to_euler.
    erewrite bind_inr by (by eapply RotationEulerDegrees_to_radians_spec).
    erewrite RotationEulerRadians_to_euler_spec;
      [|by apply euler_instance_new; left|done].
    case_bool_decide as Hrad.
    + do 2 eexists. split_and!; [done| | |done| | |done].
      * simpl. rewrite length_app. simpl. lia.
      * intros _. apply (euler_instance_new RotationEulerRadians). by left.
      * simpl. rewrite !length_app. simpl. lia.
      * by do 2 apply euler_instance_instantiated_old.
    + do 2 eexists. split_and!; [done| |done| | |  |done].
      * simpl. rewrite length_app. simpl. lia.
      * intros _. apply (euler_instance_new RotationEulerDegrees). by right.
      * simpl. rewrite !length_app. simpl. lia.
      * by do 2 apply euler_instance_instantiated_old.
Qed.

End UnitConversions.

Lemma shape33_identity_backend (r : Rotation (F:=float)) : shape33 (R_as_matrix r).
Proof. split; [reflexivity|]. repeat constructor. Qed.

Lemma to_matrix_homogeneous_witness :
  euler_instance world_r123 0 RotationEulerRadians (np_array [1; 2; 3]%float) "rxyz" ∧
  ∃ w', to_matrix 0 world_r123 =
          (inr (homogeneous
                  (R_as_matrix
                     (as_rotation RotationEulerRadians (np_array [1; 2; 3]%float) "rxyz"))),
           w').
Proof.
  split; [apply euler_instance_world_r123|].
  destruct (to_matrix_homogeneous world_r123 0 RotationEulerRadians
              (np_array [1; 2; 3]%float) "rxyz" euler_instance_world_r123
              (shape33_identity_backend _)) as (w' & Hm & _).
  exists w'. exact Hm.
Defined.

Lemma rotate_is_matrix_product_witness :
  euler_instance world_r123 0 RotationEulerRadians (np_array [1; 2; 3]%float) "rxyz" ∧
  ∃ w', rotate 0 [1; 0; 0]%float world_r123 =
          (np_dot_mv
             (R_as_matrix
                (as_rotation RotationEulerRadians (np_array [1; 2; 3]%float) "rxyz"))
             [1; 0; 0]%float, w').
Proof.
  split; [apply euler_instance_world_r123|].
  destruct (rotate_is_matrix_product world_r123 0 RotationEulerRadians
              (np_array [1; 2; 3]%float) "rxyz" [1; 0; 0]%float euler_instance_world_r123
              (shape33_identity_backend _)) as (w' & Hm & _).
  exists w'. exact Hm.
Defined.

Lemma from_matrix_of_to_matrix_witness :
  euler_instance world_r123 0 RotationEulerRadians (np_array [1; 2; 3]%float) "rxyz" ∧
  ∃ l' w', (m ← to_matrix 0; RotationQuaternion_from_matrix m) world_r123 = (inr l', w').
Proof.
  split; [apply euler_instance_world_r123|].
  destruct (from_matrix_of_to_matrix world_r123 0 RotationEulerRadians
              (np_array [1; 2; 3]%float) "rxyz" euler_instance_world_r123
              (shape33_identity_backend _)) as (l' & w' & Hm & _).
  exists l', w'. exact Hm.
Defined.

Lemma euler_unit_conversions_witness :
  euler_instance world_r123 0 RotationEulerRadians (np_array [1; 2; 3]%float) "rxyz" ∧
  ∃ l' w', to_degrees 0 world_r123 = (inr l', w') ∧ l' ≠ 0.
Proof.
  split; [apply euler_instance_world_r123|].
  destruct (euler_unit_conversions world_r123 0 RotationEulerRadians
              (np_array [1; 2; 3]%float) "rxyz" euler_instance_world_r123) as [Hdeg _].
  destruct (Hdeg eq_refl) as (l' & w' & Hm & Hne & _).
  exists l', w'. split; assumption.
Defined.

Lemma upper_DEG_valid : lower "DEG" ∈ ["rad"; "deg"].
Proof. change (lower "DEG") with "deg". repeat constructor. Qed.

Lemma to_euler_values_witness :
  euler_instance world_r123 0 RotationEulerRadians (np_array [1; 2; 3]%float) "rxyz" ∧
  lower "DEG" ∈ ["rad"; "deg"] ∧
  ∃ l' w', to_euler 0 "DEG" world_r123 = (inr l', w') ∧ l' ≠ 0.
Proof.
  split; [apply euler_instance_world_r123|]. split; [apply upper_DEG_valid|].
  destruct (to_euler_values world_r123 0 RotationEulerRadians
              (np_array [1; 2; 3]%float) "rxyz" "DEG" euler_instance_world_r123
              upper_DEG_valid) as (l' & w' & Hm & Hne & _).
  exists l', w'. split; assumption.
Defined.

(** ** Indexing: [Coordinates.__getitem__] *)

Section GetItem.
Context {F : Type} `{Arith F}.

Implicit Types (w : world (F:=F)) (l : loc) (c : cls) (a xs : list F).

Lemma dict_get_Some_key (d : list (ascii * nat)) (k : ascii) (j : nat) :
  dict_get d k = Some j → k ∈ dict_keys d.
Proof.
  unfold dict_keys. induction d as [|[k' v] d IH]; simpl; [done|].
  destruct (decide (k' = k)) as [->|Hne].
  - intros _. apply elem_of_cons. by left.
  - intros Hd. apply elem_of_cons. right. by apply IH.
Qed.

(** An integer index in range selects the element at the index taken
    modulo the length, so [-1] is the last component; out of range it
    raises [IndexError].  The world stays as it is. *)
Theorem getitem_int_index w l c a i :
  instance w l c a →
  ((- Z.of_nat (length a) ≤ i < Z.of_nat (length a))%Z →
     ∃ x, a !! Z.to_nat (i mod Z.of_nat (length a)) = Some x ∧
          Coordinates__getitem__ l (Int i) w = (inr (Scalar x), w)) ∧
  (¬ (- Z.of_nat (length a) ≤ i < Z.of_nat (length a))%Z →
     Coordinates__getitem__ l (Int i) w = (inl IndexError, w)).
Proof.
  intros Hi. unfold Coordinates__getitem__.
  erewrite bind_inr by (by eapply get_array_spec).
  unfold np_getitem_int. split; intros Hr.
  - rewrite bool_decide_eq_true_2 by done.
    assert ((if bool_decide (i < 0)%Z then i + Z.of_nat (length a) else i)%Z
            = (i mod Z.of_nat (length a))%Z) as ->.
    { case_bool_decide.
      - rewrite <- (Z.mod_small (i + Z.of_nat (length a)) (Z.of_nat (length a))) by lia.
        rewrite <- (Z.mul_1_l (Z.of_nat (length a))) at 1.
        by rewrite Z_mod_plus_full.
      - by rewrite Z.mod_small by lia. }
    destruct (lookup_lt_is_Some_2 a (Z.to_nat (i mod Z.of_nat (length a)))) as [x Hx].
    { pose proof (Z.mod_pos_bound i (Z.of_nat (length a))). lia. }
    exists x. split; [done|]. by rewrite Hx.
  - by rewrite bool_decide_eq_false_2 by done.
Qed.

(** Indexing with the position of an axis letter, or with that position
    counted from the end, reads what the accessor of that letter reads. *)
Theorem getitem_int_accessor w l c a k j :
  instance w l c a →
  dict_get (coords c) k = Some j →
  j < length a →
  ∃ x, a !! j = Some x ∧
       get l (string_of_list_ascii [k]) w = (inr (Scalar x), w) ∧
       Coordinates__getitem__ l (Int (Z.of_nat j)) w = (inr (Scalar x), w) ∧
       Coordinates__getitem__ l (Int (Z.of_nat j - Z.of_nat (length a))) w =
         (inr (Scalar x), w).
Proof.
  intros Hi Hk Hj.
  destruct (lookup_lt_is_Some_2 a j Hj) as [x Hx].
  exists x. split_and!; [done| | |].
  - rewrite (get_spec w l c a [k] Hi).
    + unfold components. simpl. rewrite Hk. simpl. by rewrite Hx.
    + apply elem_of_accessor_args. split_and!; simpl.
      * lia.
      * destruct c; simpl; lia.
      * apply Forall_singleton. by eapply dict_get_Some_key.
  - unfold Coordinates__getitem__.
    erewrite bind_inr by (by eapply get_array_spec).
    unfold np_getitem_int. rewrite bool_decide_eq_true_2 by lia.
    rewrite bool_decide_eq_false_2 by lia. rewrite Nat2Z.id. by rewrite Hx.
  - unfold Coordinates__getitem__.
    erewrite bind_inr by (by eapply get_array_spec).
    unfold np_getitem_int. rewrite bool_decide_eq_true_2 by lia.
    rewrite bool_decide_eq_true_2 by lia.
    replace (Z.to_nat (Z.of_nat j - Z.of_nat (length a) + Z.of_nat (length a))) with j by lia.
    by rewrite Hx.
Qed.

Lemma slice_adjust_bounds n st v :
  (0 ≤ n)%Z →
  ((0 < st)%Z → (0 ≤ slice_adjust n st v ≤ n)%Z) ∧
  ((st < 0)%Z → (-1 ≤ slice_adjust n st v ≤ n - 1)%Z).
Proof. intros Hn. unfold slice_adjust. repeat case_bool_decide; lia. Qed.

(** The positions that a slice selects lie inside the sequence. *)
Lemma slice_indices_in_range n start stop step idxs :
  (0 ≤ n)%Z →
  slice_indices n start stop step = inr idxs →
  Forall (fun i => (0 ≤ i < n)%Z) idxs.
Proof.
  intros Hn. unfold slice_indices.
  set (st := default 1%Z step).
  case_bool_decide as Hst; [done|].
  set (lo := match start with Some v => slice_adjust n st v | None => _ end).
  set (hi := match stop with Some v => slice_adjust n st v | None => _ end).
  intros [= <-].
  assert (((0 < st) → 0 ≤ lo ≤ n ∧ 0 ≤ hi ≤ n) ∧
          ((st < 0) → -1 ≤ lo ≤ n - 1 ∧ -1 ≤ hi ≤ n - 1))%Z as [Hpos Hneg].
  { unfold lo, hi. split; intros Hs.
    - split; [destruct start|destruct stop];
        try (by apply slice_adjust_bounds);
        rewrite bool_decide_eq_false_2 by lia; lia.
    - split; [destruct start|destruct stop];
        try (by apply slice_adjust_bounds);
        rewrite bool_decide_eq_true_2 by lia; lia. }
  clearbody lo hi.
  apply Forall_fmap, Forall_forall. intros k Hk%elem_of_seq. simpl.
  case_bool_decide as Hs.
  - destruct (Hneg Hs) as [Hlo Hhi]. case_bool_decide as Hlt; [|simpl in Hk; lia].
    pose proof (Z.mul_div_le (lo - hi - 1) (- st)) as Hdiv.
    pose proof (Z.div_pos (lo - hi - 1) (- st)) as Hdp.
    assert (Z.of_nat k ≤ (lo - hi - 1) / - st)%Z by lia.
    nia.
  - assert (0 < st)%Z as Hs' by lia.
    destruct (Hpos Hs') as [Hlo Hhi]. case_bool_decide as Hlt; [|simpl in Hk; lia].
    pose proof (Z.mul_div_le (hi - lo - 1) st) as Hdiv.
    pose proof (Z.div_pos (hi - lo - 1) st) as Hdp.
    assert (Z.of_nat k ≤ (hi - lo - 1) / st)%Z by lia.
    nia.
Qed.

(** Indexing with a slice never raises [IndexError], whatever its bounds:
    with a step other than zero it returns a tuple of components of the
    instance, and with step zero it raises [ValueError].  The world stays
    as it is. *)
Theorem getitem_slice_total w l c a start stop step :
  instance w l c a →
  (step ≠ Some 0%Z →
     ∃ xs, Coordinates__getitem__ l (Slice start stop step) w = (inr (Sequence xs), w) ∧
           Forall (fun x => x ∈ a) xs) ∧
  (step = Some 0%Z →
     Coordinates__getitem__ l (Slice start stop step) w =
       (inl (ValueError "slice step cannot be zero"), w)).
Proof.
  intros Hi. unfold Coordinates__getitem__.
  erewrite bind_inr by (by eapply get_array_spec).
  unfold np_getitem_slice. split.
  - intros Hstep.
    destruct (slice_indices (Z.of_nat (length a)) start stop step) as [e|idxs] eqn:Hs.
    { unfold slice_indices in Hs. case_bool_decide as Hz; [|done].
      destruct step as [st|]; simpl in Hz; [by subst|done]. }
    pose proof (slice_indices_in_range _ _ _ _ _ (Nat2Z.is_nonneg _) Hs) as Hrange.
    destruct (mapM (fun i => a !! Z.to_nat i) idxs) as [xs|] eqn:Hm.
    + exists xs. split; [done|].
      apply mapM_Some_1 in Hm. clear Hs Hrange.
      induction Hm as [|i x idxs' xs' Hx _ IH]; constructor; [|done].
      by eapply list_elem_of_lookup_2.
    + exfalso. apply eq_None_not_Some in Hm. apply Hm, mapM_is_Some.
      eapply Forall_impl; [done|]. intros i Hr. simpl in *.
      apply lookup_lt_is_Some. lia.
  - intros ->. unfold slice_indices. simpl. done.
Qed.

(** A slice with non-negative bounds and no step selects the components
    from [start] up to, not including, [stop]; a bound that is left out is
    the beginning or the end, and a bound beyond the end is the end.  So
    [t[:]] is the tuple of all components, for a three-component instance
    of a class with the axes x, y, z the value of [t.xyz]. *)
Theorem getitem_slice_take_drop w l c a (start stop : option nat) :
  instance w l c a →
  Coordinates__getitem__ l (Slice (Z.of_nat <$> start) (Z.of_nat <$> stop) None) w =
    (inr (Sequence (take (default (length a) stop - default 0 start)
                         (drop (default 0 start) a))), w) ∧
  Coordinates__getitem__ l (Slice None None None) w = (inr (Sequence a), w) ∧
  (c ≠ RotationQuaternion → length a = 3 →
     Coordinates__getitem__ l (Slice None None None) w = get l "xyz" w).
Proof.
  intros Hi.
  assert (∀ start stop : option nat,
    Coordinates__getitem__ l (Slice (Z.of_nat <$> start) (Z.of_nat <$> stop) None) w =
      (inr (Sequence (take (default (length a) stop - default 0 start)
                           (drop (default 0 start) a))), w)) as Hgen.
  { clear start stop. intros start stop. unfold Coordinates__getitem__.
    erewrite bind_inr by (by eapply get_array_spec).
    unfold np_getitem_slice, slice_indices. simpl.
    set (n := Z.of_nat (length a)).
    set (lo := match Z.of_nat <$> start with Some v => slice_adjust n 1 v | None => 0%Z end).
    set (hi := match Z.of_nat <$> stop with Some v => slice_adjust n 1 v | None => n end).
    assert (lo = Z.of_nat (default 0 start `min` length a)) as Hlo.
    { unfold lo, n. destruct start as [i|]; simpl; [|lia].
      unfold slice_adjust. repeat case_bool_decide; lia. }
    assert (hi = Z.of_nat (default (length a) stop `min` length a)) as Hhi.
    { unfold hi, n. destruct stop as [j|]; simpl; [|lia].
      unfold slice_adjust. repeat case_bool_decide; lia. }
    clearbody lo hi. subst lo hi.
    set (s := default 0 start). set (e := default (length a) stop).
    rewrite Z.div_1_r.
    erewrite (mapM_Some_2 _ _ (take (e - s) (drop s a))); [done|].
    apply Forall2_same_length_lookup_2.
    - rewrite length_fmap, length_seq, length_take, length_drop.
      case_bool_decide; lia.
    - intros k i x Hk Hx.
      apply list_lookup_fmap_Some in Hk as (k' & -> & [-> _]%lookup_seq).
      apply lookup_take_Some in Hx as [Hx Hlt]. rewrite lookup_drop in Hx.
      pose proof (lookup_lt_Some _ _ _ Hx) as Hlen. simpl.
      replace (Z.to_nat (Z.of_nat (s `min` length a) + Z.of_nat k * 1)) with (s + k) by lia.
      done. }
  assert (Coordinates__getitem__ l (Slice None None None) w = (inr (Sequence a), w))
    as Hall.
  { pose proof (Hgen None None) as Hnone. simpl in Hnone.
    by rewrite drop_0, Nat.sub_0_r, firstn_all in Hnone. }
  split_and!.
  - apply Hgen.
  - exact Hall.
  - intros Hc Hlen. rewrite Hall. symmetry. by eapply get_xyz.
Qed.

End GetItem.

Lemma length_world_t123_array : length (np_array [1; 2; 3]%float) = 3.
Proof. unfold np_array. by rewrite length_fmap. Qed.

Lemma getitem_int_index_witness :
  instance world_t123 0 Translation (np_array [1; 2; 3]%float) ∧
  ∃ x, Coordinates__getitem__ 0 (Int (-1)) world_t123 = (inr (Scalar x), world_t123).
Proof.
  split; [apply instance_world_t123|].
  destruct (getitem_int_index world_t123 0 Translation (np_array [1; 2; 3]%float) (-1)
              instance_world_t123) as [Hin _].
  destruct Hin as (x & _ & Hget).
  - rewrite length_world_t123_array. lia.
  - by exists x.
Defined.

Lemma getitem_int_accessor_witness :
  instance world_t123 0 Translation (np_array [1; 2; 3]%float) ∧
  dict_get (coords Translation) "y" = Some 1 ∧
  ∃ x, get 0 "y" world_t123 = (inr (Scalar x), world_t123) ∧
       Coordinates__getitem__ 0 (Int 1) world_t123 = (inr (Scalar x), world_t123).
Proof.
  split; [apply instance_world_t123|]. split; [reflexivity|].
  destruct (getitem_int_accessor world_t123 0 Translation (np_array [1; 2; 3]%float)
              "y" 1 instance_world_t123 eq_refl) as (x & _ & Hget & Hitem & _).
  - rewrite length_world_t123_array. lia.
  - exists x. split; [exact Hget|exact Hitem].
Defined.

Lemma getitem_slice_total_witness :
  instance world_t123 0 Translation (np_array [1; 2; 3]%float) ∧
  ∃ xs, Coordinates__getitem__ 0 (Slice (Some (-5)%Z) (Some 7%Z) (Some 2%Z)) world_t123 =
          (inr (Sequence xs), world_t123).
Proof.
  split; [apply instance_world_t123|].
  destruct (getitem_slice_total world_t123 0 Translation (np_array [1; 2; 3]%float)
              (Some (-5)%Z) (Some 7%Z) (Some 2%Z) instance_world_t123) as [Hok _].
  destruct Hok as (xs & Hget & _); [discriminate|].
  by exists xs.
Defined.

Lemma getitem_slice_take_drop_witness :
  instance world_t123 0 Translation (np_array [1; 2; 3]%float) ∧
  Coordinates__getitem__ 0 (Slice None None None) world_t123 = get 0 "xyz" world_t123.
Proof.
  split; [apply instance_world_t123|].
  destruct (getitem_slice_take_drop world_t123 0 Translation (np_array [1; 2; 3]%float)
              None None instance_world_t123) as (_ & _ & Hxyz).
  apply Hxyz; [discriminate|apply length_world_t123_array].
Defined.

(** ** What the reading methods never do *)

Create HintDb pure_db.

Section Frames.
Context {F : Type} `{Arith F} `{Backend F}.

Implicit Types (w : world (F:=F)) (l self : loc) (c : cls) (a args : list F).
Implicit Types (axes units name : string) (matrix : list (list F)).

(** *** Computations that leave the world as it is *)

Lemma pure_ret {A} (x : A) : pure (F:=F) (mret x).
Proof. intros w r w' [= _ <-]. done. Qed.

Lemma pure_raise {A} e : pure (F:=F) (raise (A:=A) e).
Proof. intros w r w' [= _ <-]. done. Qed.

Lemma pure_lift {A} (r : exn + A) : pure (F:=F) (lift r).
Proof. intros w r' w' [= _ <-]. done. Qed.

Lemma pure_bind {A B} (m : Py (F:=F) A) (k : A → Py (F:=F) B) :
  pure m → (∀ x, pure (k x)) → pure (m ≫= k).
Proof.
  intros Hm Hk w r w' Hb. unfold mbind, Py_bind in Hb.
  destruct (m w) as [[e|x] w1] eqn:Hmw.
  - injection Hb as _ <-. by eapply Hm.
  - apply Hk in Hb as ->. by eapply Hm.
Qed.

Lemma pure_deref l : pure (F:=F) (deref l).
Proof. intros w r w'. unfold deref. case_match; by intros [= _ <-]. Qed.

Lemma pure_find_property l name : pure (F:=F) (find_property l name).
Proof.
  intros w r w'. unfold find_property. repeat case_match; by intros [= _ <-].
Qed.

#[local] Hint Resolve pure_ret pure_raise pure_lift pure_deref pure_find_property : pure_db.

Ltac pure_auto :=
  repeat first [ solve [auto with pure_db]
               | apply pure_bind; [|intros ?]
               | case_match ].

Lemma pure_getattr l name : pure (F:=F) (getattr l name).
Proof. unfold getattr. pure_auto. Qed.

#[local] Hint Resolve pure_getattr : pure_db.

Lemma pure_get_array l : pure (F:=F) (get_array l).
Proof. unfold get_array. pure_auto. Qed.

Lemma pure_getattr_str l name : pure (F:=F) (getattr_str l name).
Proof. unfold getattr_str. pure_auto. Qed.

#[local] Hint Resolve pure_get_array pure_getattr_str : pure_db.

Lemma pure_getter p l : pure (F:=F) (getter p l).
Proof. unfold getter. pure_auto. Qed.

#[local] Hint Resolve pure_getter : pure_db.

Lemma pure_get l name : pure (F:=F) (get l name).
Proof. unfold get. pure_auto. Qed.

Lemma pure_as_tuple (v : pyvalue F) : pure (F:=F) (as_tuple v).
Proof. unfold as_tuple. pure_auto. Qed.

Lemma pure_getitem a i : pure (F:=F) (getitem a i).
Proof. unfold getitem. pure_auto. Qed.

Lemma pure_assert_units units : pure (F:=F) (assert_units units).
Proof. unfold assert_units. pure_auto. Qed.

#[local] Hint Resolve pure_get pure_as_tuple pure_getitem pure_assert_units : pure_db.

Lemma pure_operand_oth other : pure (F:=F) (operand_oth other).
Proof. unfold operand_oth. pure_auto. Qed.

Lemma pure_operand_xyz other : pure (F:=F) (operand_xyz other).
Proof. unfold operand_xyz. pure_auto. Qed.

Lemma pure_Coordinates__getitem__ l item : pure (F:=F) (Coordinates__getitem__ l item).
Proof. unfold Coordinates__getitem__. pure_auto. Qed.

Lemma pure_RotationEulerRadians_to_matrix l : pure (RotationEulerRadians_to_matrix l).
Proof. unfold RotationEulerRadians_to_matrix. pure_auto. Qed.

Lemma pure_RotationQuaternion_to_matrix l : pure (RotationQuaternion_to_matrix l).
Proof. unfold RotationQuaternion_to_matrix. pure_auto. Qed.

Lemma pure_Translation_to_matrix l : pure (F:=F) (Translation_to_matrix l).
Proof. unfold Translation_to_matrix. pure_auto. Qed.

Lemma pure_Scale_to_matrix l : pure (F:=F) (Scale_to_matrix l).
Proof. unfold Scale_to_matrix. pure_auto. Qed.

(** Reading never changes anything: the generated getters, indexing, and
    the [to_matrix] methods of the radians, quaternion, translation and
    scale classes hand back the world they were given, whether they return
    or raise, on every world and every argument. *)
Theorem reads_are_pure l name item :
  pure (F:=F) (get l name) ∧
  pure (F:=F) (Coordinates__getitem__ l item) ∧
  pure (RotationEulerRadians_to_matrix l) ∧
  pure (RotationQuaternion_to_matrix l) ∧
  pure (F:=F) (Translation_to_matrix l) ∧
  pure (F:=F) (Scale_to_matrix l).
Proof.
  split_and!.
  - apply pure_get.
  - apply pure_Coordinates__getitem__.
  - apply pure_RotationEulerRadians_to_matrix.
  - apply pure_RotationQuaternion_to_matrix.
  - apply pure_Translation_to_matrix.
  - apply pure_Scale_to_matrix.
Qed.

End Frames.
